(** * Verification of the event aggregation pipeline (events_providers.py)

    A shallow embedding of [events_providers.py]: the geo utility
    [haversine_km], the two provider adapters [fetch_eventbrite_events] and
    [fetch_campus_events], the merge step [merge_and_dedupe] and the
    orchestration [get_events_for_query]; and of the page [index] of
    [app.py] that calls it.

    Conventions of the embedding.
    - A Python exception is a value of [exn]; code that can raise returns
      [result A]; [try ... except Exception: continue] is a match on it.
    - Python [float] values are idealised as real numbers ([R]): rounding,
      NaN and the infinities are outside the model, and with them the
      [ValueError] of [math.sqrt] and [math.asin] when rounding takes
      their argument out of [0, 1]; over the real numbers the argument
      stays within, for every latitude in [-90, 90].
    - [os.getenv] reads a finite map, and each HTTP exchange is answered by
      the [world] the program runs in.
    - The functions of the Python runtime that the program calls but does
      not define ([str.lower], [float] on a string,
      [datetime.fromisoformat]) are the fields of the class [Runtime]; the
      general theorems hold for every runtime, the concrete scenarios run
      on the instance [py_runtime]. *)

From Stdlib Require Import Reals Lra Ascii.
From stdpp Require Import gmap strings list sorting.

Set Default Proof Using "Type".
Set Warnings "-register-all".

(** ** Exceptions and fallible computations *)

Inductive exn : Type :=
  | ConnectionError   (* requests.get got no response *)
  | HTTPError         (* resp.raise_for_status() on a 4xx/5xx status *)
  | JSONDecodeError   (* resp.json() on a body that is not JSON *)
  | AttributeError
  | KeyError
  | TypeError
  | ValueError.

Inductive result (A : Type) : Type :=
  | Ok (a : A)
  | Raise (e : exn).
Arguments Ok {A} a.
Arguments Raise {A} e.

Definition rbind {A B : Type} (k : A → result B) (m : result A) : result B :=
  match m with
  | Ok a => k a
  | Raise e => Raise e
  end.

(** [x ← m; k] runs [m] and stops at the first exception. *)
#[global] Instance result_ret : MRet result := @Ok.
#[global] Instance result_bind : MBind result := @rbind.

Definition is_Ok {A : Type} (m : result A) : Prop := ∃ a, m = Ok a.

(** ** datetime *)

(** [datetime.datetime]: the civil fields and [tzinfo]. A naive value has
    [tzinfo = None]; an aware one carries its UTC offset in microseconds
    (the only time zones the program creates are the fixed offsets built by
    [datetime.fromisoformat]). *)
Record datetime : Type := mk_datetime {
  year : Z;
  month : Z;
  day : Z;
  hour : Z;
  minute : Z;
  second : Z;
  microsecond : Z;
  tzinfo : option Z
}.

Definition is_leap (y : Z) : bool :=
  (y mod 4 =? 0)%Z && (negb (y mod 100 =? 0)%Z || (y mod 400 =? 0)%Z).

Definition days_in_month (y m : Z) : Z :=
  if (m =? 2)%Z then (if is_leap y then 29 else 28)%Z
  else if ((m =? 4) || (m =? 6) || (m =? 9) || (m =? 11))%Z then 30%Z
  else 31%Z.

(** [_days_before_year], [_days_before_month] and [_ymd2ord] of
    [datetime.py]. *)
Definition days_before_year (y : Z) : Z :=
  let y' := (y - 1)%Z in
  (y' * 365 + y' / 4 - y' / 100 + y' / 400)%Z.

Definition days_before_month (y m : Z) : Z :=
  (nth (Z.to_nat m)
       [0; 0; 31; 59; 90; 120; 151; 181; 212; 243; 273; 304; 334] 0
   + (if (2 <? m)%Z && is_leap y then 1 else 0))%Z.

Definition ymd2ord (y m d : Z) : Z :=
  (days_before_year y + days_before_month y m + d)%Z.

(** Microseconds since the start of the proleptic calendar, read on the
    wall clock of the value. *)
Definition wall_micros (t : datetime) : Z :=
  ((((ymd2ord (year t) (month t) (day t) * 24 + hour t) * 60 + minute t) * 60
    + second t) * 1000000 + microsecond t)%Z.

(** The instant a value denotes: the wall clock for a naive value, the wall
    clock minus the offset for an aware one. *)
Definition instant (t : datetime) : Z :=
  match tzinfo t with
  | None => wall_micros t
  | Some off => (wall_micros t - off)%Z
  end.

Definition aware (t : datetime) : bool :=
  match tzinfo t with Some _ => true | None => false end.

(** Ordering comparisons of [datetime] ([__lt__], [__le__]): values of the
    same awareness are ordered by their instants; comparing a naive with an
    aware value raises [TypeError: can't compare offset-naive and
    offset-aware datetimes]. *)
Definition dt_cmp (op : Z → Z → bool) (a b : datetime) : result bool :=
  if bool_decide (aware a = aware b) then Ok (op (instant a) (instant b))
  else Raise TypeError.

Definition dt_lt : datetime → datetime → result bool := dt_cmp Z.ltb.
Definition dt_le : datetime → datetime → result bool := dt_cmp Z.leb.

(** A [datetime] object always has its fields in range: the constructor
    checks them. *)
Definition valid_datetime (t : datetime) : Prop :=
  (1 ≤ year t ≤ 9999 ∧ 1 ≤ month t ≤ 12
   ∧ 1 ≤ day t ≤ days_in_month (year t) (month t)
   ∧ 0 ≤ hour t < 24 ∧ 0 ≤ minute t < 60 ∧ 0 ≤ second t < 60
   ∧ 0 ≤ microsecond t < 1000000)%Z.

(** CPython orders two naive values, and two aware values of one offset,
    field by field; [dt_lt_fields] shows that this is the order of the
    instants. *)
Definition fields (t : datetime) : list Z :=
  [year t; month t; day t; hour t; minute t; second t; microsecond t].

Fixpoint lex_lt (a b : list Z) : Prop :=
  match a, b with
  | x :: a', y :: b' => (x < y)%Z ∨ (x = y ∧ lex_lt a' b')
  | _, _ => False
  end.

(** [t.date().isoformat()]: ["%04d-%02d-%02d"]. *)
Definition digit (n : Z) : Ascii.ascii :=
  Ascii.ascii_of_nat (48 + Z.to_nat (n mod 10)).

Definition pad2 (n : Z) : string :=
  String (digit (n / 10)) (String (digit n) EmptyString).

Definition pad4 (n : Z) : string :=
  String (digit (n / 1000)) (String (digit (n / 100)) (pad2 n)).

Definition date_isoformat (t : datetime) : string :=
  pad4 (year t) +:+ "-" +:+ pad2 (month t) +:+ "-" +:+ pad2 (day t).

(** ** Geo utility *)

(** [math.radians]. *)
Definition radians (deg : R) : R := (deg * (PI / 180))%R.

(** [haversine_km(lat1, lon1, lat2, lon2)]: distance between two lat/lon
    points in km. *)
Definition haversine_km (lat1 lon1 lat2 lon2 : R) : R :=
  let R_earth := 6371%R in
  let phi1 := radians lat1 in
  let phi2 := radians lat2 in
  let dphi := radians (lat2 - lat1) in
  let dlambda := radians (lon2 - lon1) in
  let a := (sin (dphi / 2) ^ 2
            + cos phi1 * cos phi2 * sin (dlambda / 2) ^ 2)%R in
  (2 * R_earth * asin (sqrt a))%R.

(** The value of the local [a] of [haversine_km], to which [math.sqrt] is
    applied; [math.asin] is applied to its square root. *)
Definition haversine_a (lat1 lon1 lat2 lon2 : R) : R :=
  (sin (radians (lat2 - lat1) / 2) ^ 2
   + cos (radians lat1) * cos (radians lat2)
     * sin (radians (lon2 - lon1) / 2) ^ 2)%R.

(** ** The event record *)

(** The dataclass [Event], with the field types of its annotations. *)
Record Event : Type := mk_Event {
  title : string;
  description : string;
  start_time : datetime;
  end_time : option datetime;
  venue_name : string;
  address : string;
  lat : option R;
  lng : option R;
  url : string;
  source : string
}.

(** ** JSON values as Python sees them after [resp.json()] *)

Inductive json : Type :=
  | JNull                           (* None *)
  | JBool (b : bool)
  | JNum (x : R)                    (* int or float *)
  | JStr (s : string)
  | JArr (l : list json)
  | JObj (m : gmap string json).    (* dict *)

(** Truth value of an object ([bool(v)]). *)
Definition truthy (v : json) : bool :=
  match v with
  | JNull => false
  | JBool b => b
  | JNum x => if Req_dec_T x 0 then false else true
  | JStr s => negb (String.eqb s "")
  | JArr l => negb (Nat.eqb (length l) 0)
  | JObj m => negb (Nat.eqb (size m) 0)
  end.

(** [a or b]. *)
Definition py_or (a b : json) : json := if truthy a then a else b.

(** [v.get(k, dflt)]: only a dict has [get]. *)
Definition py_get (v : json) (k : string) (dflt : json) : result json :=
  match v with
  | JObj m => Ok (default dflt (m !! k))
  | _ => Raise AttributeError
  end.

(** [v[k]] for a string key [k]. *)
Definition py_index (v : json) (k : string) : result json :=
  match v with
  | JObj m => match m !! k with Some x => Ok x | None => Raise KeyError end
  | _ => Raise TypeError
  end.

(** [for item in v]: a list yields its elements, a string its characters, a
    dict its keys; the other values are not iterable. *)
Definition py_iter (v : json) : result (list json) :=
  match v with
  | JArr l => Ok l
  | JStr s =>
      Ok ((λ c, JStr (String c EmptyString)) <$> String.list_ascii_of_string s)
  | JObj m => Ok (JStr <$> (map_to_list m).*1)
  | _ => Raise TypeError
  end.

(** [s.replace("Z", "+00:00")] on a string. *)
Fixpoint replace_Z (s : string) : string :=
  match s with
  | EmptyString => EmptyString
  | String c s' =>
      if Ascii.eqb c "Z"%char then "+00:00" +:+ replace_Z s'
      else String c (replace_Z s')
  end.

(** [v.replace("Z", "+00:00")]: only a string has [replace]. *)
Definition py_replace_Z (v : json) : result string :=
  match v with
  | JStr s => Ok (replace_Z s)
  | _ => Raise AttributeError
  end.

(** [sep.join(parts)]: every part must be a string. *)
Fixpoint py_join (sep : string) (parts : list json) : result string :=
  match parts with
  | [] => Ok EmptyString
  | JStr s :: rest =>
      match rest with
      | [] => Ok s
      | _ => t ← py_join sep rest; Ok (s +:+ sep +:+ t)
      end
  | _ => Raise TypeError
  end.

(** A value stored in a field annotated [str]. Python stores it unchecked;
    the record of the model has the annotated types, so a truthy value that
    is not text counts as one more malformed item. *)
Definition as_str (v : json) : result string :=
  match v with
  | JStr s => Ok s
  | _ => Raise TypeError
  end.

(** ** The Python runtime *)

Class Runtime : Type := {
  (** [str.lower] *)
  str_lower : string → string;
  (** [float(s)] on a string: [None] stands for [ValueError] *)
  float_of_str : string → option R;
  (** [datetime.fromisoformat(s)]: [None] stands for [ValueError] *)
  fromisoformat : string → option datetime
}.

Definition or_raise {A : Type} (e : exn) (o : option A) : result A :=
  match o with
  | Some a => Ok a
  | None => Raise e
  end.

(** ** The world outside the process *)

(** What [requests.get] comes back with: no response at all (the call
    raises), or a response with a status code and a body. *)
Inductive http_reply (A : Type) : Type :=
  | Unreachable
  | Reply (status : Z) (body : A).
Arguments Unreachable {A}.
Arguments Reply {A} status body.

(** [requests.get(...)] followed by [resp.raise_for_status()]. *)
Definition get_checked {A : Type} (r : http_reply A) : result A :=
  match r with
  | Unreachable => Raise ConnectionError
  | Reply status body =>
      if ((400 <=? status) && (status <? 600))%Z then Raise HTTPError
      else Ok body
  end.

(** The search request sent to Eventbrite: its [params] and bearer token. *)
Record search_request : Type := mk_search_request {
  location_latitude : R;
  location_longitude : R;
  location_within : R;
  range_start : datetime;
  range_end : datetime;
  bearer : string
}.

(** An element selected from the campus page: its stripped text and its
    [href] attribute. *)
Record tag : Type := mk_tag {
  get_text : string;
  href : option string
}.

(** One [.event-item] block, seen through the four [select_one] calls. *)
Record event_item : Type := mk_event_item {
  event_title : option tag;
  event_date : option tag;
  event_venue : option tag;
  first_link : option tag
}.

Record world : Type := mk_world {
  (** [os.getenv], after [load_dotenv()] *)
  environ : gmap string string;
  (** the Eventbrite search endpoint; the body is [None] when it is not
      JSON *)
  eventbrite_search : search_request → http_reply (option json);
  (** a page by URL, as the list of its [.event-item] blocks *)
  web_page : string → http_reply (list event_item)
}.

(** [os.getenv(name)] under [if not value]: unset and empty count as
    absent. *)
Definition getenv (w : world) (name : string) : option string :=
  match environ w !! name with
  | Some EmptyString => None
  | o => o
  end.

Section Providers.
Context `{rt : Runtime}.

(** ** Eventbrite provider (API-based) *)

(** [float(v)]. *)
Definition py_float (v : json) : result R :=
  match v with
  | JStr s => or_raise ValueError (float_of_str s)
  | JNum x => Ok x
  | JBool b => Ok (if b then 1%R else 0%R)
  | _ => Raise TypeError
  end.

(** [datetime.fromisoformat(v["utc"].replace("Z", "+00:00"))]. *)
Definition parse_utc (v : json) : result datetime :=
  utc ← py_index v "utc";
  s ← py_replace_Z utc;
  or_raise ValueError (fromisoformat s).

(** The loop over the address keys: every key with a truthy value
    contributes that value. *)
Fixpoint address_loop (addr : json) (keys : list string)
    (address_parts : list json) : result (list json) :=
  match keys with
  | [] => Ok address_parts
  | key :: keys' =>
      v ← py_get addr key JNull;
      if truthy v then
        x ← py_index addr key;
        address_loop addr keys' (address_parts ++ [x])
      else address_loop addr keys' address_parts
  end.

(** [float(venue[key]) if venue.get(key) else None]. *)
Definition coordinate (venue : json) (key : string) : result (option R) :=
  v ← py_get venue key JNull;
  if truthy v then
    x ← py_index venue key;
    f ← py_float x;
    Ok (Some f)
  else Ok None.

(** [venue = item.get("venue", {}) or {}]. *)
Definition item_venue (item : json) : result json :=
  venue_obj ← py_get item "venue" (JObj ∅);
  Ok (py_or venue_obj (JObj ∅)).

(** The body of the [try] block: one item of the payload becomes an event,
    or an exception is raised. *)
Definition eventbrite_item (item : json) : result Event :=
  name_obj ← py_get item "name" (JObj ∅);
  name_text ← py_get name_obj "text" JNull;
  name ← as_str (py_or name_text (JStr "Untitled Event"));
  description_obj ← py_get item "description" (JObj ∅);
  description_text ← py_get (py_or description_obj (JObj ∅)) "text" JNull;
  description ← as_str (py_or description_text (JStr ""));
  start_obj ← py_index item "start";
  start ← parse_utc start_obj;
  end_obj ← py_get item "end" JNull;
  end_ ←
    (if truthy end_obj then
       end_obj' ← py_index item "end";
       end_utc ← py_get end_obj' "utc" JNull;
       if truthy end_utc then
         end_obj'' ← py_index item "end";
         t ← parse_utc end_obj'';
         Ok (Some t)
       else Ok None
     else Ok None);
  venue ← item_venue item;
  venue_name_v ← py_get venue "name" JNull;
  venue_name ← as_str (py_or venue_name_v (JStr "Unknown venue"));
  addr_obj ← py_get venue "address" (JObj ∅);
  let addr := py_or addr_obj (JObj ∅) in
  address_parts ←
    address_loop addr ["address_1"; "city"; "region"; "postal_code"; "country"] [];
  address ← py_join ", " address_parts;
  ev_lat ← coordinate venue "latitude";
  ev_lng ← coordinate venue "longitude";
  url_v ← py_get item "url" JNull;
  url_evt ← as_str (py_or url_v (JStr ""));
  Ok {| title := name;
        description := description;
        start_time := start;
        end_time := end_;
        venue_name := venue_name;
        address := address;
        lat := ev_lat;
        lng := ev_lng;
        url := url_evt;
        source := "Eventbrite" |}.

(** [for item in ...: try: ... events.append(Event(...)) except Exception:
    continue]. *)
Fixpoint eventbrite_loop (items : list json) (events : list Event)
    : list Event :=
  match items with
  | [] => events
  | item :: items' =>
      match eventbrite_item item with
      | Ok e => eventbrite_loop items' (events ++ [e])
      | Raise _ => eventbrite_loop items' events
      end
  end.

Definition fetch_eventbrite_events (w : world)
    (lat lng radius_km : R) (start_date end_date : datetime)
    : result (list Event) :=
  match getenv w "EVENTBRITE_TOKEN" with
  | None =>
      (* No token configured; return empty list to avoid runtime errors. *)
      Ok []
  | Some token =>
      let params :=
        {| location_latitude := lat;
           location_longitude := lng;
           location_within := radius_km;
           range_start := start_date;
           range_end := end_date;
           bearer := token |} in
      body ← get_checked (eventbrite_search w params);
      data ← or_raise JSONDecodeError body;
      events_v ← py_get data "events" (JArr []);
      items ← py_iter events_v;
      Ok (eventbrite_loop items [])
  end.

(** ** Campus provider (HTML page) *)

(** [tag.get_text(strip=True) if tag else dflt]. *)
Definition text_or (t : option tag) (dflt : string) : string :=
  match t with
  | Some t' => get_text t'
  | None => dflt
  end.

(** [start_date <= start <= end_date]: the second comparison is evaluated
    only when the first one holds. *)
Definition in_range (start_date start end_date : datetime) : result bool :=
  lo ← dt_le start_date start;
  if lo : bool then dt_le start end_date else Ok false.

(** The body of the [try] block: [Ok None] is the [continue] of the date
    check. *)
Definition campus_item (page_url : string) (start_date end_date : datetime)
    (div : event_item) : result (option Event) :=
  let title := text_or (event_title div) "Untitled event" in
  let date_str := text_or (event_date div) "" in
  let venue_name := text_or (event_venue div) "On campus" in
  let url_evt :=
    match first_link div with
    | Some link_tag => default page_url (href link_tag)
    | None => page_url
    end in
  start ← or_raise ValueError (fromisoformat date_str);
  ok ← in_range start_date start end_date;
  if negb ok then Ok None
  else
    Ok (Some {| title := title;
                description := "Campus event";
                start_time := start;
                end_time := None;
                venue_name := venue_name;
                address := venue_name;
                lat := None;
                lng := None;
                url := url_evt;
                source := "Campus" |}).

Fixpoint campus_loop (page_url : string) (start_date end_date : datetime)
    (divs : list event_item) (events : list Event) : list Event :=
  match divs with
  | [] => events
  | div :: divs' =>
      match campus_item page_url start_date end_date div with
      | Ok (Some e) =>
          campus_loop page_url start_date end_date divs' (events ++ [e])
      | Ok None | Raise _ =>
          campus_loop page_url start_date end_date divs' events
      end
  end.

Definition fetch_campus_events (w : world) (start_date end_date : datetime)
    : result (list Event) :=
  match getenv w "CAMPUS_EVENTS_URL" with
  | None => Ok []
  | Some page_url =>
      divs ← get_checked (web_page w page_url);
      Ok (campus_loop page_url start_date end_date divs [])
  end.

(** ** Merge & deduplicate *)

Definition signature (e : Event) : string * string * string :=
  (str_lower (title e), date_isoformat (start_time e),
   str_lower (venue_name e)).

(** The two nested loops: the state is the set [sigs] and the list
    [merged]. *)
Definition dedupe_event (st : gset (string * string * string) * list Event)
    (e : Event) : gset (string * string * string) * list Event :=
  let '(sigs, merged) := st in
  let sig := signature e in
  if decide (sig ∈ sigs) then (sigs, merged)
  else ({[sig]} ∪ sigs, merged ++ [e]).

Definition dedupe_list (st : gset (string * string * string) * list Event)
    (lst : list Event) : gset (string * string * string) * list Event :=
  foldl dedupe_event st lst.

Definition dedupe (events_lists : list (list Event)) : list Event :=
  (foldl dedupe_list (∅, []) events_lists).2.

(** [merged.sort(key=lambda e: e.start_time)]. [list.sort] is a stable sort
    that compares keys with [<] only and lets an exception of the
    comparison propagate; it is written here as a stable insertion sort.
    When it returns, every stable sort returns the same list
    ([sort_by_start_time_unique]); it raises exactly when naive and aware
    start times meet ([sort_by_start_time_Raise]), which no comparison sort
    can order without comparing one with the other. *)
Fixpoint insert_by_start_time (e : Event) (sorted : list Event)
    : result (list Event) :=
  match sorted with
  | [] => Ok [e]
  | x :: rest =>
      before ← dt_lt (start_time x) (start_time e);
      if before : bool then
        rest' ← insert_by_start_time e rest;
        Ok (x :: rest')
      else Ok (e :: x :: rest)
  end.

Fixpoint sort_by_start_time (events : list Event) : result (list Event) :=
  match events with
  | [] => Ok []
  | e :: rest =>
      sorted ← sort_by_start_time rest;
      insert_by_start_time e sorted
  end.

Definition merge_and_dedupe (events_lists : list (list Event))
    : result (list Event) :=
  sort_by_start_time (dedupe events_lists).

(** ** Orchestration *)

(** The radius filter of [get_events_for_query]; [q_lat], [q_lng] are the
    [lat], [lng] of the query. *)
Fixpoint radius_loop (q_lat q_lng radius_km : R) (events filtered : list Event)
    : list Event :=
  match events with
  | [] => filtered
  | e :: events' =>
      match lat e, lng e with
      | Some e_lat, Some e_lng =>
          if Rle_dec (haversine_km q_lat q_lng e_lat e_lng) radius_km
          then radius_loop q_lat q_lng radius_km events' (filtered ++ [e])
          else radius_loop q_lat q_lng radius_km events' filtered
      | _, _ =>
          (* If no geo, keep it *)
          radius_loop q_lat q_lng radius_km events' (filtered ++ [e])
      end
  end.

Definition get_events_for_query (w : world) (lat lng radius_km : R)
    (start_date end_date : datetime) : result (list Event) :=
  events_from_eventbrite ←
    fetch_eventbrite_events w lat lng radius_km start_date end_date;
  campus_events ← fetch_campus_events w start_date end_date;
  events ← merge_and_dedupe [events_from_eventbrite; campus_events];
  Ok (radius_loop lat lng radius_km events []).

End Providers.

(** ** A runtime for the concrete scenarios *)

(** The instance below agrees with CPython on the strings the scenarios
    use: ASCII text for [str.lower], plain decimal literals
    ([[+-]digits[.digits]]) for [float], and for
    [datetime.fromisoformat] the timestamps [YYYY-MM-DD] and
    [YYYY-MM-DD*HH:MM[:SS][+HH:MM]] that every CPython since 3.7 accepts.
    It rejects every other string. *)
Module PyRuntime.

Definition lower_ascii (c : ascii) : ascii :=
  let n := nat_of_ascii c in
  if (65 <=? n)%nat && (n <=? 90)%nat then ascii_of_nat (n + 32) else c.

Fixpoint lower (s : string) : string :=
  match s with
  | EmptyString => EmptyString
  | String c s' => String (lower_ascii c) (lower s')
  end.

Definition digit_val (c : ascii) : option Z :=
  let n := nat_of_ascii c in
  if (48 <=? n)%nat && (n <=? 57)%nat then Some (Z.of_nat n - 48)%Z
  else None.

(** The longest run of leading digits: its value, its length and the rest
    of the string. *)
Fixpoint digits (s : string) (acc : Z) (len : nat) : Z * nat * string :=
  match s with
  | EmptyString => (acc, len, s)
  | String c s' =>
      match digit_val c with
      | Some d => digits s' (acc * 10 + d)%Z (S len)
      | None => (acc, len, s)
      end
  end.

Definition unsigned_decimal (s : string) : option R :=
  let '(int_part, n, rest) := digits s 0 0 in
  if (n =? 0)%nat then None
  else
    match rest with
    | EmptyString => Some (IZR int_part)
    | String c rest' =>
        if Ascii.eqb c "."%char then
          let '(mantissa, k, rest'') := digits rest' int_part 0 in
          match rest'' with
          | EmptyString =>
              if (k =? 0)%nat then None
              else Some (IZR mantissa / IZR (10 ^ Z.of_nat k))%R
          | _ => None
          end
        else None
    end.

Definition decimal (s : string) : option R :=
  match s with
  | String c s' =>
      if Ascii.eqb c "-"%char then Ropp <$> unsigned_decimal s'
      else if Ascii.eqb c "+"%char then unsigned_decimal s'
      else unsigned_decimal s
  | EmptyString => None
  end.

(** Exactly [n] digits. *)
Fixpoint take_num (n : nat) (acc : Z) (s : string) : option (Z * string) :=
  match n with
  | O => Some (acc, s)
  | S n' =>
      match s with
      | String c s' =>
          d ← digit_val c; take_num n' (acc * 10 + d)%Z s'
      | EmptyString => None
      end
  end.

Definition expect (c : ascii) (s : string) : option string :=
  match s with
  | String c' s' => if Ascii.eqb c c' then Some s' else None
  | EmptyString => None
  end.

(** [+HH:MM] or [-HH:MM] at the end of the string, in microseconds. *)
Definition iso_offset (s : string) : option Z :=
  match s with
  | String c s' =>
      sign ← (if Ascii.eqb c "+"%char then Some 1%Z
              else if Ascii.eqb c "-"%char then Some (-1)%Z else None);
      '(hh, s1) ← take_num 2 0 s';
      s2 ← expect ":" s1;
      '(mm, s3) ← take_num 2 0 s2;
      match s3 with
      | EmptyString =>
          if ((hh <? 24) && (mm <? 60))%Z
          then Some (sign * (hh * 3600 + mm * 60) * 1000000)%Z
          else None
      | _ => None
      end
  | EmptyString => None
  end.

Definition iso_time (y m d : Z) (s : string) : option datetime :=
  '(hh, s1) ← take_num 2 0 s;
  s2 ← expect ":" s1;
  '(mi, s3) ← take_num 2 0 s2;
  '(ss, s4) ← (match expect ":" s3 with
               | Some s3' => take_num 2 0 s3'
               | None => Some (0%Z, s3)
               end);
  if ((hh <? 24) && (mi <? 60) && (ss <? 60))%Z then
    match s4 with
    | EmptyString => Some (mk_datetime y m d hh mi ss 0 None)
    | _ => off ← iso_offset s4; Some (mk_datetime y m d hh mi ss 0 (Some off))
    end
  else None.

Definition iso_datetime (s : string) : option datetime :=
  '(y, s1) ← take_num 4 0 s;
  s2 ← expect "-" s1;
  '(m, s3) ← take_num 2 0 s2;
  s4 ← expect "-" s3;
  '(d, s5) ← take_num 2 0 s4;
  if ((1 <=? y) && (1 <=? m) && (m <=? 12) && (1 <=? d)
      && (d <=? days_in_month y m))%Z then
    match s5 with
    | EmptyString => Some (mk_datetime y m d 0 0 0 0 None)
    | String _ s6 => iso_time y m d s6
    end
  else None.

End PyRuntime.

Definition py_runtime : Runtime :=
  {| str_lower := PyRuntime.lower;
     float_of_str := PyRuntime.decimal;
     fromisoformat := PyRuntime.iso_datetime |}.


(** ** The caller in app.py *)

(** The [try] block of [index()] once the query parameters are parsed:
    [events] stays [[]] when [get_events_for_query] raises ("Error parsing
    query params or fetching events"). *)
Definition index_events `{rt : Runtime} (w : world) (lat lng radius_km : R)
    (start_dt end_dt : datetime) : list Event :=
  match get_events_for_query w lat lng radius_km start_dt end_dt with
  | Ok events => events
  | Raise _ => []
  end.

(** ** The page of app.py *)

(** [datetime.date]. *)
Record date : Type := mk_date {
  date_year : Z;
  date_month : Z;
  date_day : Z
}.

Definition valid_date (d : date) : Prop :=
  (1 ≤ date_year d ≤ 9999 ∧ 1 ≤ date_month d ≤ 12
   ∧ 1 ≤ date_day d ≤ days_in_month (date_year d) (date_month d))%Z.

(** [d.toordinal()]. *)
Definition toordinal (d : date) : Z :=
  ymd2ord (date_year d) (date_month d) (date_day d).

(** [d.isoformat()]. *)
Definition date_str (d : date) : string :=
  pad4 (date_year d) +:+ "-" +:+ pad2 (date_month d) +:+ "-"
  +:+ pad2 (date_day d).

(** The day after [d] in the calendar. *)
Definition next_day (d : date) : date :=
  if (date_day d <? days_in_month (date_year d) (date_month d))%Z
  then mk_date (date_year d) (date_month d) (date_day d + 1)
  else if (date_month d <? 12)%Z
       then mk_date (date_year d) (date_month d + 1) 1
       else mk_date (date_year d + 1) 1 1.

(** [d + timedelta(days=n)]: the date [n] days later; [None] stands for the
    [OverflowError] of a result after the year 9999. [datetime.py] computes
    it through the ordinal of the date; the section on dates relates the
    two. *)
Definition date_plus_days (d : date) (n : nat) : option date :=
  let later := Nat.iter n next_day d in
  if (date_year later <=? 9999)%Z then Some later else None.

(** [str(x)] on a float. *)
Class Formatter : Type := {
  float_str : R → string
}.

(** The context handed to [render_template]. *)
Record page : Type := mk_page {
  page_events : list Event;
  page_lat : string;
  page_lng : string;
  page_radius : string;
  page_start_date : string;
  page_end_date : string
}.

(** A request parameter that is present and not empty ([if param]). *)
Definition given (param : option string) : bool :=
  match param with
  | Some s => negb (String.eqb s "")
  | None => false
  end.

(** [param or dflt]. *)
Definition param_or (param : option string) (dflt : string) : string :=
  match param with
  | Some s => if String.eqb s "" then dflt else s
  | None => dflt
  end.

(** The [try] block of [index()]: it leaves the variables [radius_km] and
    [events] as they are when an exception interrupts it (the handler only
    prints a message, which is not modelled). *)
Definition index_try `{rt : Runtime} (w : world) (lat_param lng_param : string)
    (radius_param : option string) (start_str end_str : string)
    (radius_km : R) (events : list Event) : R * list Event :=
  match or_raise ValueError (float_of_str lat_param) with
  | Raise _ => (radius_km, events)
  | Ok lat =>
  match or_raise ValueError (float_of_str lng_param) with
  | Raise _ => (radius_km, events)
  | Ok lng =>
  match (match radius_param with
         | Some s => if given radius_param
                     then or_raise ValueError (float_of_str s)
                     else Ok radius_km
         | None => Ok radius_km
         end) with
  | Raise _ => (radius_km, events)
  | Ok radius_km =>
  match or_raise ValueError (fromisoformat start_str) with
  | Raise _ => (radius_km, events)
  | Ok start_dt =>
  match or_raise ValueError (fromisoformat end_str) with
  | Raise _ => (radius_km, events)
  | Ok end_dt =>
  match get_events_for_query w lat lng radius_km start_dt end_dt with
  | Raise _ => (radius_km, events)
  | Ok events => (radius_km, events)
  end end end end end end.

(** [index()]: [today] is [datetime.today().date()], [args] is
    [request.args]; [None] stands for the [OverflowError] of the default
    end date. *)
Definition index `{rt : Runtime} `{fm : Formatter} (w : world) (today : date)
    (args : gmap string string) : option page :=
  let events := [] in
  let radius_km := 10%R in
  let default_start := date_str today in
  end_day ← date_plus_days today 7;
  let default_end := date_str end_day in
  let lat_param := args !! "lat" in
  let lng_param := args !! "lng" in
  let radius_param := args !! "radius" in
  let start_param := args !! "start_date" in
  let end_param := args !! "end_date" in
  let '(radius_km, events) :=
    match lat_param, lng_param with
    | Some lat_s, Some lng_s =>
        if given lat_param && given lng_param
        then index_try w lat_s lng_s radius_param
               (param_or start_param default_start)
               (param_or end_param default_end) radius_km events
        else (radius_km, events)
    | _, _ => (radius_km, events)
    end in
  Some {| page_events := events;
          page_lat := param_or lat_param "";
          page_lng := param_or lng_param "";
          page_radius := param_or radius_param (float_str radius_km);
          page_start_date := param_or start_param default_start;
          page_end_date := param_or end_param default_end |}.

(** [str] on the one float the page ever formats, the default radius
    10.0. *)
Definition py_formatter : Formatter :=
  {| float_str := λ _, "10.0" |}.

(** A date whose month and day are in range, whatever the year. *)
Definition valid_month_day (d : date) : Prop :=
  (1 ≤ date_month d ≤ 12
   ∧ 1 ≤ date_day d ≤ days_in_month (date_year d) (date_month d))%Z.

(** ** Properties the specification speaks of *)

(** All start times are naive, or all are aware. *)
Definition timezone_consistent (events : list Event) : Prop :=
  ∀ e1 e2, e1 ∈ events → e2 ∈ events →
    aware (start_time e1) = aware (start_time e2).

(** [lat] and [lng] are both present or both absent. *)
Definition paired_coordinates (e : Event) : Prop :=
  is_Some (lat e) ↔ is_Some (lng e).

(** Python's [a <= b] answers [True]. *)
Definition start_le (e1 e2 : Event) : Prop :=
  dt_le (start_time e1) (start_time e2) = Ok true.

(** The order of the instants, without the question of awareness. *)
Definition instant_le (e1 e2 : Event) : Prop :=
  (instant (start_time e1) ≤ instant (start_time e2))%Z.

(** The events that start at the instant [z]. *)
Definition starts_at (z : Z) (e : Event) : Prop :=
  instant (start_time e) = z.

#[global] Instance starts_at_dec z e : Decision (starts_at z e).
Proof. unfold starts_at. apply _. Defined.

(** Python's [a == b] on two datetimes answers [True]. *)
Definition same_start (t : datetime) (e : Event) : Prop :=
  aware (start_time e) = aware t ∧ instant (start_time e) = instant t.

#[global] Instance same_start_dec t e : Decision (same_start t e).
Proof. unfold same_start. apply _. Defined.

(** The radius rule in the words of the specification: an event with both
    coordinates is kept when it lies within the radius, an event that lacks
    a coordinate is kept. *)
Definition within_radius (q_lat q_lng radius_km : R) (e : Event) : Prop :=
  match lat e, lng e with
  | Some e_lat, Some e_lng =>
      (haversine_km q_lat q_lng e_lat e_lng <= radius_km)%R
  | _, _ => True
  end.

#[global] Instance within_radius_dec q_lat q_lng radius_km e :
  Decision (within_radius q_lat q_lng radius_km e).
Proof.
  unfold within_radius. destruct (lat e), (lng e); try (left; exact I).
  apply Rle_dec.
Defined.

(** Coordinates of a point of the Earth, in degrees: the inputs the
    specification takes the distance to be defined on. *)
Definition valid_coordinates (lat lng : R) : Prop :=
  (-90 <= lat <= 90)%R ∧ (-180 <= lng <= 180)%R.

(** Deduplication in the words of the specification: of the concatenated
    lists, keep the events whose signature no earlier event has. *)
Definition first_of_each_signature `{rt : Runtime} (all : list Event)
    : list Event :=
  (filter (λ p, signature p.2 ∉ signature <$> take p.1 all)
          (imap pair all)).*2.

(** ** Notions for the further properties *)

(** An event that lacks a coordinate. *)
Definition lacks_coordinate (e : Event) : Prop :=
  lat e = None ∨ lng e = None.

#[global] Instance lacks_coordinate_dec e : Decision (lacks_coordinate e).
Proof.
  unfold lacks_coordinate.
  destruct (lat e), (lng e);
    solve [left; auto | right; intros [?|?]; discriminate].
Defined.

(** The address of a venue in the words of the code: the values of the five
    address keys that are present and truthy, in this order. *)
Definition address_keys : list string :=
  ["address_1"; "city"; "region"; "postal_code"; "country"].

Definition present_parts (addr : gmap string json) : list json :=
  omap (λ key, match addr !! key with
               | Some v => if truthy v then Some v else None
               | None => None
               end) address_keys.

(** [addr = venue.get("address", {}) or {}]. *)
Definition venue_address (venue : json) : result json :=
  addr_obj ← py_get venue "address" (JObj ∅);
  Ok (py_or addr_obj (JObj ∅)).

(** ** Scenarios *)

Module Scenario.

Definition query_start : datetime := mk_datetime 2024 6 1 0 0 0 0 None.
Definition query_end : datetime := mk_datetime 2024 6 8 0 0 0 0 None.

(** An item of the Eventbrite payload with a UTC timestamp and no venue
    coordinates. *)
Definition jazz_item : json :=
  JObj {[ "name" := JObj {[ "text" := JStr "Jazz Night" ]};
          "start" := JObj {[ "utc" := JStr "2024-06-01T20:00:00Z" ]};
          "venue" := JObj {[ "name" := JStr "Hall A" ]};
          "url" := JStr "https://eventbrite.example/jazz" ]}.

Definition jazz : Event :=
  {| title := "Jazz Night";
     description := "";
     start_time := mk_datetime 2024 6 1 20 0 0 0 (Some 0%Z);
     end_time := None;
     venue_name := "Hall A";
     address := "";
     lat := None;
     lng := None;
     url := "https://eventbrite.example/jazz";
     source := "Eventbrite" |}.

(** An item whose venue has a latitude and no longitude. *)
Definition half_located_item : json :=
  JObj {[ "name" := JObj {[ "text" := JStr "Jazz Night" ]};
          "start" := JObj {[ "utc" := JStr "2024-06-01T20:00:00Z" ]};
          "venue" := JObj {[ "name" := JStr "Hall A";
                             "latitude" := JStr "40.0" ]} ]}.

Definition half_located : Event :=
  {| title := "Jazz Night";
     description := "";
     start_time := mk_datetime 2024 6 1 20 0 0 0 (Some 0%Z);
     end_time := None;
     venue_name := "Hall A";
     address := "";
     lat := Some (400 / 10)%R;
     lng := None;
     url := "";
     source := "Eventbrite" |}.

(** Two blocks of the campus page. *)
Definition art_walk_div : event_item :=
  {| event_title := Some (mk_tag "Art Walk" None);
     event_date := Some (mk_tag "2024-06-02 18:00" None);
     event_venue := Some (mk_tag "Plaza" None);
     first_link := Some (mk_tag "details" (Some "/events/art-walk")) |}.

Definition art_walk_again_div : event_item :=
  {| event_title := Some (mk_tag "ART WALK" None);
     event_date := Some (mk_tag "2024-06-02 09:30" None);
     event_venue := Some (mk_tag "plaza" None);
     first_link := None |}.

Definition art_walk : Event :=
  {| title := "Art Walk";
     description := "Campus event";
     start_time := mk_datetime 2024 6 2 18 0 0 0 None;
     end_time := None;
     venue_name := "Plaza";
     address := "Plaza";
     lat := None;
     lng := None;
     url := "/events/art-walk";
     source := "Campus" |}.

Definition campus_url : string := "https://campus.example/events".

Definition art_walk_again : Event :=
  {| title := "ART WALK";
     description := "Campus event";
     start_time := mk_datetime 2024 6 2 9 30 0 0 None;
     end_time := None;
     venue_name := "plaza";
     address := "plaza";
     lat := None;
     lng := None;
     url := campus_url;
     source := "Campus" |}.

(** Three events of one morning and a second listing of the first. *)
Definition listing (title venue_name url : string) (hour minute : Z) : Event :=
  {| title := title;
     description := "Campus event";
     start_time := mk_datetime 2024 6 3 hour minute 0 0 None;
     end_time := None;
     venue_name := venue_name;
     address := venue_name;
     lat := None;
     lng := None;
     url := url;
     source := "Campus" |}.

Definition talk : Event := listing "Talk" "Room 1" "/talk" 10 0.
Definition lunch : Event := listing "Lunch" "Canteen" "/lunch" 9 0.
Definition panel : Event := listing "Panel" "Room 2" "/panel" 10 0.
Definition talk_relisted : Event := listing "TALK" "room 1" "/talk-2" 15 0.

Definition both_configured : gmap string string :=
  {[ "EVENTBRITE_TOKEN" := "secret"; "CAMPUS_EVENTS_URL" := campus_url ]}.

Definition payload (items : list json) : http_reply (option json) :=
  Reply 200 (Some (JObj {[ "events" := JArr items ]})).

(** Nothing is configured. *)
Definition unconfigured : world :=
  {| environ := ∅;
     eventbrite_search := λ _, Unreachable;
     web_page := λ _, Unreachable |}.

(** Only the campus page is configured; it lists the same event twice. *)
Definition campus_only : world :=
  {| environ := {[ "CAMPUS_EVENTS_URL" := campus_url ]};
     eventbrite_search := λ _, Unreachable;
     web_page := λ _, Reply 200 [art_walk_div; art_walk_again_div] |}.

(** Both sources are configured and each returns one event. *)
Definition both_up : world :=
  {| environ := both_configured;
     eventbrite_search := λ _, payload [jazz_item];
     web_page := λ _, Reply 200 [art_walk_div] |}.

(** Both sources are configured; Eventbrite cannot be reached. *)
Definition eventbrite_down : world :=
  {| environ := both_configured;
     eventbrite_search := λ _, Unreachable;
     web_page := λ _, Reply 200 [art_walk_div] |}.

(** Both sources list the same concert; Eventbrite gives its position and a
    timestamp without offset, the campus page lists one more event. *)
Definition located_item : json :=
  JObj {[ "name" := JObj {[ "text" := JStr "Jazz Night" ]};
          "start" := JObj {[ "utc" := JStr "2024-06-01T20:00:00" ]};
          "venue" := JObj {[ "name" := JStr "Hall A";
                             "latitude" := JStr "40.0";
                             "longitude" := JStr "-73.0" ]} ]}.

Definition jazz_located : Event :=
  {| title := "Jazz Night";
     description := "";
     start_time := mk_datetime 2024 6 1 20 0 0 0 None;
     end_time := None;
     venue_name := "Hall A";
     address := "";
     lat := Some (400 / 10)%R;
     lng := Some (- (730 / 10))%R;
     url := "";
     source := "Eventbrite" |}.

Definition jazz_div : event_item :=
  {| event_title := Some (mk_tag "Jazz Night" None);
     event_date := Some (mk_tag "2024-06-01 20:00" None);
     event_venue := Some (mk_tag "Hall A" None);
     first_link := None |}.

Definition jazz_on_campus : Event :=
  {| title := "Jazz Night";
     description := "Campus event";
     start_time := mk_datetime 2024 6 1 20 0 0 0 None;
     end_time := None;
     venue_name := "Hall A";
     address := "Hall A";
     lat := None;
     lng := None;
     url := campus_url;
     source := "Campus" |}.

Definition end_to_end : world :=
  {| environ := both_configured;
     eventbrite_search := λ _, payload [located_item];
     web_page := λ _, Reply 200 [jazz_div; art_walk_div] |}.

(** Only Eventbrite is configured; its one event has half a position. *)
Definition half_position : world :=
  {| environ := {[ "EVENTBRITE_TOKEN" := "secret" ]};
     eventbrite_search := λ _, payload [half_located_item];
     web_page := λ _, Unreachable |}.

(** Items of a payload: one with nothing but a start time, one whose name is
    not an object, one with an address, one on the equator with numeric
    coordinates, one whose end time cannot be parsed. *)
Definition bare_item : json :=
  JObj {[ "start" := JObj {[ "utc" := JStr "2024-06-03T09:00:00" ]} ]}.

Definition bare : Event :=
  {| title := "Untitled Event";
     description := "";
     start_time := mk_datetime 2024 6 3 9 0 0 0 None;
     end_time := None;
     venue_name := "Unknown venue";
     address := "";
     lat := None;
     lng := None;
     url := "";
     source := "Eventbrite" |}.

Definition broken_item : json :=
  JObj {[ "name" := JStr "Jazz Night";
          "start" := JObj {[ "utc" := JStr "2024-06-03T09:00:00" ]} ]}.

Definition street_address : gmap string json :=
  {[ "address_1" := JStr "1 Main St"; "city" := JStr "Springfield";
     "region" := JStr ""; "country" := JStr "US" ]}.

Definition addressed_venue : json :=
  JObj {[ "name" := JStr "Hall A"; "address" := JObj street_address ]}.

Definition addressed_item : json :=
  JObj {[ "start" := JObj {[ "utc" := JStr "2024-06-03T09:00:00" ]};
          "venue" := addressed_venue ]}.

Definition addressed : Event :=
  {| title := "Untitled Event";
     description := "";
     start_time := mk_datetime 2024 6 3 9 0 0 0 None;
     end_time := None;
     venue_name := "Hall A";
     address := "1 Main St, Springfield, US";
     lat := None;
     lng := None;
     url := "";
     source := "Eventbrite" |}.

Definition equator_venue : gmap string json :=
  {[ "latitude" := JNum 0; "longitude" := JNum 5 ]}.

Definition equator_item : json :=
  JObj {[ "start" := JObj {[ "utc" := JStr "2024-06-03T09:00:00" ]};
          "venue" := JObj equator_venue ]}.

Definition on_equator : Event :=
  {| title := "Untitled Event";
     description := "";
     start_time := mk_datetime 2024 6 3 9 0 0 0 None;
     end_time := None;
     venue_name := "Unknown venue";
     address := "";
     lat := None;
     lng := Some 5%R;
     url := "";
     source := "Eventbrite" |}.

Definition open_ended : gmap string json :=
  {[ "start" := JObj {[ "utc" := JStr "2024-06-03T09:00:00" ]};
     "end" := JObj {[ "utc" := JStr "late" ]} ]}.

Definition mixed_items : gmap string json :=
  {[ "events" := JArr ([jazz_item] ++ broken_item :: [bare_item]) ]}.

(** Only Eventbrite is configured; the middle item of its payload is
    malformed. *)
Definition one_bad_item : world :=
  {| environ := {[ "EVENTBRITE_TOKEN" := "secret" ]};
     eventbrite_search := λ _, Reply 200 (Some (JObj mixed_items));
     web_page := λ _, Unreachable |}.

(** Eventbrite lists two concerts on the equator, one at longitude 0 and
    one a degree of longitude to the east (some 111 km away); the campus
    page lists one event without a position. *)
Definition concert_item (name hour longitude : string) : json :=
  JObj {[ "name" := JObj {[ "text" := JStr name ]};
          "start" := JObj {[ "utc" := JStr ("2024-06-01T" +:+ hour) ]};
          "venue" := JObj {[ "name" := JStr "Quay";
                             "latitude" := JStr "0";
                             "longitude" := JStr longitude ]} ]}.

Definition concert (title : string) (hour : Z) (longitude : R) : Event :=
  {| title := title;
     description := "";
     start_time := mk_datetime 2024 6 1 hour 0 0 0 None;
     end_time := None;
     venue_name := "Quay";
     address := "";
     lat := Some 0%R;
     lng := Some longitude;
     url := "";
     source := "Eventbrite" |}.

Definition quay_concert : Event := concert "Quay Concert" 20 0.
Definition island_concert : Event := concert "Island Concert" 21 1.

Definition along_the_equator : world :=
  {| environ := both_configured;
     eventbrite_search :=
       λ _, payload [concert_item "Quay Concert" "20:00:00" "0";
                     concert_item "Island Concert" "21:00:00" "1"];
     web_page := λ _, Reply 200 [art_walk_div] |}.

(** A block of the campus page without a date. *)
Definition undated_div : event_item :=
  {| event_title := Some (mk_tag "Mystery" None);
     event_date := None;
     event_venue := None;
     first_link := None |}.

(** A day and three requests for the page. *)
Definition today : date := mk_date 2024 6 1.

Definition no_coordinates : gmap string string :=
  {[ "lat" := "40.0"; "radius" := "25" ]}.

Definition bad_latitude : gmap string string :=
  {[ "lat" := "north"; "lng" := "-73.0" ]}.

Definition plain_search : gmap string string :=
  {[ "lat" := "40.0"; "lng" := "-73.0" ]}.

End Scenario.

(** * Theorems *)

(** ** The result monad *)

Lemma rbind_Ok {A B : Type} (m : result A) (k : A → result B) (b : B) :
  m ≫= k = Ok b ↔ ∃ a, m = Ok a ∧ k a = Ok b.
Proof.
  destruct m as [a|e]; simpl; split.
  - intros H. by exists a.
  - by intros (a' & [= ->] & H).
  - done.
  - by intros (a' & ? & _).
Qed.

Lemma or_raise_Ok {A : Type} (e : exn) (o : option A) (a : A) :
  or_raise e o = Ok a ↔ o = Some a.
Proof. destruct o; simpl; split; congruence. Qed.

Lemma is_Ok_or_Raise {A : Type} (m : result A) :
  is_Ok m ∨ ∃ e, m = Raise e.
Proof. destruct m as [a|e]; [left | right]; by eexists. Qed.

(** ** The runtime of the scenarios, on sample strings *)

Example iso_probe1 :
  PyRuntime.iso_datetime (replace_Z "2024-06-01T20:00:00Z")
  = Some (mk_datetime 2024 6 1 20 0 0 0 (Some 0%Z)).
Proof. reflexivity. Qed.

Example iso_probe2 :
  PyRuntime.iso_datetime "2024-06-02 18:00"
  = Some (mk_datetime 2024 6 2 18 0 0 0 None).
Proof. reflexivity. Qed.

Example iso_probe3 :
  PyRuntime.iso_datetime "2024-02-30" = None
  ∧ PyRuntime.iso_datetime "2024-06-01T20:00:00-05:00"
    = Some (mk_datetime 2024 6 1 20 0 0 0 (Some (-18000000000)%Z)).
Proof. split; reflexivity. Qed.

Example lower_probe : PyRuntime.lower "Jazz Night" = "jazz night".
Proof. reflexivity. Qed.

Example decimal_probe : PyRuntime.decimal "-73.5" = Some (- (IZR 735 / IZR 10))%R.
Proof. reflexivity. Qed.

(** ** The runtime of the scenarios builds well-formed datetimes *)

Section ScenarioRuntime.
Local Open Scope Z_scope.

Lemma digit_val_bounds c d : PyRuntime.digit_val c = Some d → 0 ≤ d ≤ 9.
Proof.
  unfold PyRuntime.digit_val.
  destruct (Nat.leb_spec 48 (nat_of_ascii c)),
    (Nat.leb_spec (nat_of_ascii c) 57); simpl; try done.
  intros [= <-]. lia.
Qed.

Lemma take_num_bounds n acc s v s' :
  PyRuntime.take_num n acc s = Some (v, s') →
  acc * 10 ^ Z.of_nat n ≤ v < (acc + 1) * 10 ^ Z.of_nat n.
Proof.
  revert acc s. induction n as [|n IH]; intros acc s; simpl PyRuntime.take_num.
  - intros [= <- <-]. simpl. lia.
  - destruct s as [|c s]; [done|].
    destruct (PyRuntime.digit_val c) as [d|] eqn:Hd; [|done]. simpl.
    intros Hrest%IH. apply digit_val_bounds in Hd.
    rewrite Nat2Z.inj_succ, Z.pow_succ_r by lia. nia.
Qed.

Lemma take_num_0_nonneg n s v s' :
  PyRuntime.take_num n 0 s = Some (v, s') → 0 ≤ v.
Proof. intros H%take_num_bounds. lia. Qed.

Lemma iso_time_valid y m d s t :
  1 ≤ y ≤ 9999 → 1 ≤ m ≤ 12 → 1 ≤ d ≤ days_in_month y m →
  PyRuntime.iso_time y m d s = Some t → valid_datetime t.
Proof.
  intros Hy Hm Hd. unfold PyRuntime.iso_time. intros H.
  apply bind_Some in H as ([hh s1] & Hhh%take_num_0_nonneg & H).
  apply bind_Some in H as (s2 & _ & H).
  apply bind_Some in H as ([mi s3] & Hmi%take_num_0_nonneg & H).
  apply bind_Some in H as ([ss s4] & Hss & H).
  assert (0 ≤ ss) as Hss'.
  { destruct (PyRuntime.expect ":" s3) as [s3'|].
    - by apply take_num_0_nonneg in Hss.
    - by injection Hss as <- _. }
  destruct (_ && _) eqn:Hrange; [|done].
  apply andb_prop in Hrange as [[Hh Hmin]%andb_prop Hsec].
  apply Z.ltb_lt in Hh, Hmin, Hsec.
  assert (∀ tz, valid_datetime (mk_datetime y m d hh mi ss 0 tz)) as Hvalid.
  { intros tz. unfold valid_datetime. simpl. lia. }
  destruct s4 as [|c s4].
  - injection H as <-. apply Hvalid.
  - apply bind_Some in H as (off & _ & [= <-]). apply Hvalid.
Qed.

Lemma iso_datetime_valid s t :
  PyRuntime.iso_datetime s = Some t → valid_datetime t.
Proof.
  unfold PyRuntime.iso_datetime. intros H.
  apply bind_Some in H as ([y s1] & Hy%take_num_bounds & H).
  apply bind_Some in H as (s2 & _ & H).
  apply bind_Some in H as ([m s3] & _ & H).
  apply bind_Some in H as (s4 & _ & H).
  apply bind_Some in H as ([d s5] & _ & H).
  destruct (_ && _) eqn:Hrange; [|done].
  apply andb_prop in Hrange as [[[[Hy1 Hm1]%andb_prop Hm2]%andb_prop
                                   Hd1]%andb_prop Hd2].
  apply Z.leb_le in Hy1, Hm1, Hm2, Hd1, Hd2.
  change (10 ^ Z.of_nat 4) with 10000 in Hy.
  destruct s5 as [|c s6].
  - injection H as <-. unfold valid_datetime. simpl. lia.
  - apply iso_time_valid in H; [done|lia..].
Qed.

End ScenarioRuntime.

(** ** The providers on the scenarios *)

Example eventbrite_probe :
  fetch_eventbrite_events (rt := py_runtime) Scenario.both_up 40 (-73) 5
    Scenario.query_start Scenario.query_end = Ok [Scenario.jazz].
Proof. vm_compute. reflexivity. Qed.

Example half_probe :
  fetch_eventbrite_events (rt := py_runtime) Scenario.half_position 40 (-73) 5
    Scenario.query_start Scenario.query_end = Ok [Scenario.half_located].
Proof. vm_compute. reflexivity. Qed.

Example campus_probe :
  fetch_campus_events (rt := py_runtime) Scenario.both_up
    Scenario.query_start Scenario.query_end = Ok [Scenario.art_walk].
Proof. vm_compute. reflexivity. Qed.

Example query_probe :
  get_events_for_query (rt := py_runtime) Scenario.both_up 40 (-73) 5
    Scenario.query_start Scenario.query_end = Raise TypeError.
Proof. vm_compute. reflexivity. Qed.

Example campus_only_probe :
  get_events_for_query (rt := py_runtime) Scenario.campus_only 40 (-73) 5
    Scenario.query_start Scenario.query_end = Ok [Scenario.art_walk].
Proof. vm_compute. reflexivity. Qed.

(** ** Geo utility *)

Lemma radians_0 : radians 0 = 0%R.
Proof. unfold radians. lra. Qed.

Lemma radians_opp x : radians (- x) = (- radians x)%R.
Proof. unfold radians. lra. Qed.

Lemma sin_half_sqr_opp x : (sin (- x / 2) ^ 2 = sin (x / 2) ^ 2)%R.
Proof.
  replace (- x / 2)%R with (- (x / 2))%R by lra.
  rewrite sin_neg. ring.
Qed.

Lemma haversine_km_same (lat1 lon1 : R) : haversine_km lat1 lon1 lat1 lon1 = 0%R.
Proof.
  unfold haversine_km.
  rewrite !Rminus_diag, radians_0.
  replace (0 / 2)%R with 0%R by lra.
  rewrite sin_0.
  replace (0 ^ 2 + cos (radians lat1) * cos (radians lat1) * 0 ^ 2)%R
    with 0%R by ring.
  rewrite sqrt_0, asin_0. ring.
Qed.

Lemma haversine_km_sym (lat1 lon1 lat2 lon2 : R) :
  haversine_km lat1 lon1 lat2 lon2 = haversine_km lat2 lon2 lat1 lon1.
Proof.
  unfold haversine_km.
  replace (lat1 - lat2)%R with (- (lat2 - lat1))%R by lra.
  replace (lon1 - lon2)%R with (- (lon2 - lon1))%R by lra.
  rewrite !radians_opp, !sin_half_sqr_opp.
  do 3 f_equal. ring.
Qed.

(** [math.sqrt] and [math.asin] are applied within their domains: between
    two points of the Earth, [a] and its square root lie in [0, 1]. *)
Lemma haversine_km_a (lat1 lon1 lat2 lon2 : R) :
  haversine_km lat1 lon1 lat2 lon2
  = (2 * 6371 * asin (sqrt (haversine_a lat1 lon1 lat2 lon2)))%R.
Proof. reflexivity. Qed.



Lemma asin_nonneg (x : R) : (0 <= x)%R → (0 <= asin x)%R.
Proof.
  intros Hx. unfold asin.
  destruct (Rle_dec x (-1)); [lra|].
  destruct (Rle_dec 1 x); [pose proof PI_RGT_0; lra|].
  destruct (Req_dec_T x 0) as [->|Hne].
  - replace (0 / sqrt (1 - 0²))%R with 0%R by (unfold Rdiv; ring).
    rewrite atan_0. lra.
  - rewrite <- atan_0. left. apply atan_increasing.
    apply Rdiv_lt_0_compat; [lra|].
    apply sqrt_lt_R0. unfold Rsqr. nra.
Qed.

Lemma haversine_km_nonneg (lat1 lon1 lat2 lon2 : R) :
  (0 <= haversine_km lat1 lon1 lat2 lon2)%R.
Proof.
  rewrite haversine_km_a.
  pose proof (asin_nonneg _ (sqrt_pos (haversine_a lat1 lon1 lat2 lon2))).
  lra.
Qed.

Lemma PI_3_4 : (3 < PI <= 4)%R.
Proof. pose proof PI2_3_2. pose proof PI_4. lra. Qed.

Lemma haversine_km_le (lat1 lon1 lat2 lon2 : R) :
  (haversine_km lat1 lon1 lat2 lon2 <= 6371 * 4)%R.
Proof.
  rewrite haversine_km_a.
  pose proof (asin_bound (sqrt (haversine_a lat1 lon1 lat2 lon2))) as [_ Hup].
  pose proof PI_3_4. lra.
Qed.

Lemma Rabs_le_between (x a : R) : (Rabs x <= a)%R → (- a <= x <= a)%R.
Proof. unfold Rabs. destruct (Rcase_abs x); lra. Qed.

Lemma asin_sqrt_sin_sqr (x : R) :
  (- (PI / 2) <= x <= PI / 2)%R → asin (sqrt (sin x ^ 2)) = Rabs x.
Proof.
  intros Hx. rewrite <- Rsqr_pow2, sqrt_Rsqr_abs.
  destruct (Rle_lt_dec 0 x) as [Hpos|Hneg].
  - rewrite (Rabs_right x) by lra.
    rewrite Rabs_right by (apply Rle_ge, sin_ge_0; lra).
    apply asin_sin. lra.
  - rewrite (Rabs_left x) by lra.
    assert (0 <= sin (- x))%R as Hs by (apply sin_ge_0; lra).
    rewrite sin_neg in Hs.
    rewrite Rabs_left1 by lra.
    rewrite <- sin_neg. apply asin_sin. lra.
Qed.

(** Over the real numbers the distance along a meridian, and along the
    equator, is the length of the arc: the difference in degrees, in
    radians, times the radius of the Earth. *)
Lemma haversine_km_meridian (lat1 lat2 lon : R) :
  (Rabs (lat2 - lat1) <= 180)%R →
  haversine_km lat1 lon lat2 lon = (6371 * (Rabs (lat2 - lat1) * (PI / 180)))%R.
Proof.
  intros Hd. unfold haversine_km.
  rewrite Rminus_diag, radians_0.
  replace (0 / 2)%R with 0%R by lra. rewrite sin_0.
  replace (sin (radians (lat2 - lat1) / 2) ^ 2
           + cos (radians lat1) * cos (radians lat2) * 0 ^ 2)%R
    with (sin (radians (lat2 - lat1) / 2) ^ 2)%R by ring.
  pose proof PI_RGT_0 as Hpi.
  apply Rabs_le_between in Hd.
  rewrite asin_sqrt_sin_sqr by (unfold radians; nra).
  unfold radians.
  replace ((lat2 - lat1) * (PI / 180) / 2)%R
    with ((lat2 - lat1) * (PI / 360))%R by lra.
  rewrite Rabs_mult, (Rabs_right (PI / 360)) by lra. lra.
Qed.

Lemma haversine_km_equator (lon1 lon2 : R) :
  (Rabs (lon2 - lon1) <= 180)%R →
  haversine_km 0 lon1 0 lon2 = (6371 * (Rabs (lon2 - lon1) * (PI / 180)))%R.
Proof.
  intros Hd. unfold haversine_km.
  rewrite Rminus_diag, !radians_0.
  replace (0 / 2)%R with 0%R by lra. rewrite sin_0, cos_0.
  replace (0 ^ 2 + 1 * 1 * sin (radians (lon2 - lon1) / 2) ^ 2)%R
    with (sin (radians (lon2 - lon1) / 2) ^ 2)%R by ring.
  pose proof PI_RGT_0 as Hpi.
  apply Rabs_le_between in Hd.
  rewrite asin_sqrt_sin_sqr by (unfold radians; nra).
  unfold radians.
  replace ((lon2 - lon1) * (PI / 180) / 2)%R
    with ((lon2 - lon1) * (PI / 360))%R by lra.
  rewrite Rabs_mult, (Rabs_right (PI / 360)) by lra. lra.
Qed.


(** C9. [haversine_km] is the haversine great-circle formula with Earth
    radius 6371.0 km over degree inputs converted to radians; the distance
    from a point to itself is 0 and the distance is symmetric in its two
    points (over the real numbers, which stand for Python's floats). *)
Theorem haversine_km_formula_zero_symmetric :
  (∀ lat1 lon1 lat2 lon2 : R,
     haversine_km lat1 lon1 lat2 lon2
     = (2 * 6371
        * asin (sqrt (sin ((lat2 - lat1) * (PI / 180) / 2) ^ 2
                      + cos (lat1 * (PI / 180)) * cos (lat2 * (PI / 180))
                        * sin ((lon2 - lon1) * (PI / 180) / 2) ^ 2)))%R)
  ∧ (∀ lat1 lon1 : R, haversine_km lat1 lon1 lat1 lon1 = 0%R)
  ∧ (∀ lat1 lon1 lat2 lon2 : R,
       haversine_km lat1 lon1 lat2 lon2 = haversine_km lat2 lon2 lat1 lon1).
Proof.
  split; [reflexivity|]. split.
  - apply haversine_km_same.
  - apply haversine_km_sym.
Qed.

(** ** Comparing datetimes *)

Lemma dt_cmp_Ok op a b r :
  dt_cmp op a b = Ok r ↔ aware a = aware b ∧ r = op (instant a) (instant b).
Proof.
  unfold dt_cmp. case_bool_decide as Haw; split.
  - intros [= <-]. done.
  - intros [_ ->]. done.
  - done.
  - intros [? _]. done.
Qed.


Lemma start_le_instant e1 e2 :
  start_le e1 e2 ↔
  aware (start_time e1) = aware (start_time e2)
  ∧ (instant (start_time e1) ≤ instant (start_time e2))%Z.
Proof.
  unfold start_le, dt_le. rewrite dt_cmp_Ok.
  split; intros [Haw Hle]; split; try done.
  - symmetry in Hle. by apply Z.leb_le in Hle.
  - symmetry. by apply Z.leb_le.
Qed.

(** On well-formed values the order of the instants is the order of the
    fields. *)

Section Calendar.
Local Open Scope Z_scope.

Lemma days_before_year_succ y :
  days_before_year (y + 1) = days_before_year y + (if is_leap y then 366 else 365).
Proof.
  unfold days_before_year, is_leap.
  replace (y + 1 - 1) with y by lia.
  destruct (Z.eqb_spec (y mod 4) 0), (Z.eqb_spec (y mod 100) 0),
    (Z.eqb_spec (y mod 400) 0); simpl; Z.div_mod_to_equations; lia.
Qed.

Lemma days_before_year_mono y y' :
  y < y' → days_before_year y + (if is_leap y then 366 else 365) ≤ days_before_year y'.
Proof.
  intros Hlt. replace y' with ((y + 1) + (y' - (y + 1))) by lia.
  assert (0 ≤ y' - (y + 1)) as Hk by lia. revert Hk.
  generalize (y' - (y + 1)). intros k Hk. revert k Hk.
  apply natlike_ind.
  - rewrite Z.add_0_r, days_before_year_succ. lia.
  - intros k Hk IH. replace (y + 1 + Z.succ k) with ((y + 1 + k) + 1) by lia.
    rewrite days_before_year_succ. destruct (is_leap (y + 1 + k)); lia.
Qed.

Lemma month_cases m : 1 ≤ m ≤ 12 →
  m = 1 ∨ m = 2 ∨ m = 3 ∨ m = 4 ∨ m = 5 ∨ m = 6 ∨ m = 7 ∨ m = 8 ∨ m = 9
  ∨ m = 10 ∨ m = 11 ∨ m = 12.
Proof. lia. Qed.

Lemma day_of_year_bounds y m d :
  1 ≤ m ≤ 12 → 1 ≤ d ≤ days_in_month y m →
  1 ≤ days_before_month y m + d ≤ (if is_leap y then 366 else 365).
Proof.
  intros Hm%month_cases. unfold days_in_month, days_before_month.
  destruct (is_leap y);
    repeat (destruct Hm as [->|Hm]; [simpl; lia|]); subst m; simpl; lia.
Qed.

Lemma days_before_month_mono y m d m' d' :
  1 ≤ m ≤ 12 → 1 ≤ m' ≤ 12 → 1 ≤ d ≤ days_in_month y m → 1 ≤ d' →
  m < m' → days_before_month y m + d < days_before_month y m' + d'.
Proof.
  intros Hm%month_cases Hm'%month_cases. unfold days_in_month, days_before_month.
  destruct (is_leap y);
    repeat (destruct Hm as [->|Hm]);
    repeat (destruct Hm' as [->|Hm']); try subst m; try subst m'; simpl; lia.
Qed.

Lemma ymd2ord_lt y m d y' m' d' :
  1 ≤ m ≤ 12 → 1 ≤ d ≤ days_in_month y m →
  1 ≤ m' ≤ 12 → 1 ≤ d' ≤ days_in_month y' m' →
  lex_lt [y; m; d] [y'; m'; d'] → ymd2ord y m d < ymd2ord y' m' d'.
Proof.
  intros Hm Hd Hm' Hd' Hlex. unfold ymd2ord. simpl in Hlex.
  pose proof (day_of_year_bounds y m d Hm Hd) as Hdoy.
  pose proof (day_of_year_bounds y' m' d' Hm' Hd') as Hdoy'.
  destruct Hlex as [Hy|[<- [Hlt|[<- [Hlt|[_ []]]]]]].
  - pose proof (days_before_year_mono y y' Hy). lia.
  - pose proof (days_before_month_mono y m d m' d' Hm Hm' Hd (proj1 Hd') Hlt).
    lia.
  - lia.
Qed.

Lemma lex_lt_trichotomy (a b : list Z) :
  length a = length b → lex_lt a b ∨ a = b ∨ lex_lt b a.
Proof.
  revert b. induction a as [|x a IH]; intros [|y b] Hlen; simpl in *;
    try done; [by right; left|].
  destruct (Z.lt_trichotomy x y) as [?|[->|?]]; [by left; left| |by right; right; left].
  destruct (IH b) as [?|[->|?]]; [lia| | |].
  - left. by right.
  - right. by left.
  - right. right. by right.
Qed.

Lemma wall_micros_lex_lt (a b : datetime) :
  valid_datetime a → valid_datetime b →
  lex_lt (fields a) (fields b) → wall_micros a < wall_micros b.
Proof.
  intros (_ & Hm & Hd & Hh & Hmi & Hs & Hus) (_ & Hm' & Hd' & Hh' & Hmi' & Hs' & Hus').
  unfold fields, wall_micros. intros Hlex.
  assert (lex_lt [year a; month a; day a] [year b; month b; day b]
          ∨ (ymd2ord (year a) (month a) (day a) = ymd2ord (year b) (month b) (day b)
             ∧ lex_lt [hour a; minute a; second a; microsecond a]
                      [hour b; minute b; second b; microsecond b])) as [Hdate|[-> Htime]].
  { simpl in *.
    destruct Hlex as [?|[-> [?|[-> [?|[-> Hlex]]]]]]; try (left; tauto).
    right. split; [done|]. tauto. }
  - pose proof (ymd2ord_lt _ _ _ _ _ _ Hm Hd Hm' Hd' Hdate). lia.
  - simpl in Htime. lia.
Qed.

Lemma wall_micros_lex (a b : datetime) :
  valid_datetime a → valid_datetime b →
  wall_micros a < wall_micros b ↔ lex_lt (fields a) (fields b).
Proof.
  intros Ha Hb. split; [|by apply wall_micros_lex_lt].
  intros Hlt.
  destruct (lex_lt_trichotomy (fields a) (fields b)) as [?|[Heq|Hgt]];
    [done|done| |].
  - assert (wall_micros a = wall_micros b) as Hsame; [|lia].
    unfold fields in Heq. injection Heq as E1 E2 E3 E4 E5 E6 E7.
    unfold wall_micros. congruence.
  - apply wall_micros_lex_lt in Hgt; [lia|done..].
Qed.

Lemma wall_micros_inj (a b : datetime) :
  valid_datetime a → valid_datetime b →
  wall_micros a = wall_micros b → fields a = fields b.
Proof.
  intros Ha Hb Heq.
  destruct (lex_lt_trichotomy (fields a) (fields b)) as [Hlt|[?|Hgt]];
    [done| |done|].
  - apply wall_micros_lex_lt in Hlt; [lia|done..].
  - apply wall_micros_lex_lt in Hgt; [lia|done..].
Qed.

Lemma dt_lt_fields (a b : datetime) :
  valid_datetime a → valid_datetime b → tzinfo a = tzinfo b →
  dt_lt a b = Ok true ↔ lex_lt (fields a) (fields b).
Proof.
  intros Ha Hb Htz. rewrite <- wall_micros_lex by done.
  unfold dt_lt, dt_cmp, aware, instant. rewrite Htz.
  rewrite bool_decide_eq_true_2 by done.
  destruct (tzinfo b) as [off|];
    (split; [intros [= Hlt%Z.ltb_lt]; lia | intros Hlt; f_equal; apply Z.ltb_lt; lia]).
Qed.

End Calendar.

(** ** The date key *)

Section DateKey.
Local Open Scope Z_scope.

Lemma digit_inj (a b : Z) : digit a = digit b → a mod 10 = b mod 10.
Proof.
  unfold digit. intros Heq.
  apply (f_equal nat_of_ascii) in Heq.
  assert (0 ≤ a mod 10 < 10) by (apply Z.mod_pos_bound; lia).
  assert (0 ≤ b mod 10 < 10) by (apply Z.mod_pos_bound; lia).
  rewrite !nat_ascii_embedding in Heq by lia. lia.
Qed.

Lemma pad2_inj (a b : Z) : 0 ≤ a < 100 → 0 ≤ b < 100 → pad2 a = pad2 b → a = b.
Proof.
  unfold pad2. intros Ha Hb [= E1%digit_inj E0%digit_inj].
  revert E1 E0. Z.div_mod_to_equations. lia.
Qed.

Lemma pad4_inj (a b : Z) :
  0 ≤ a < 10000 → 0 ≤ b < 10000 → pad4 a = pad4 b → a = b.
Proof.
  unfold pad4, pad2.
  intros Ha Hb [= E3%digit_inj E2%digit_inj E1%digit_inj E0%digit_inj].
  revert E3 E2 E1 E0. Z.div_mod_to_equations. lia.
Qed.

Lemma days_in_month_le y m : days_in_month y m ≤ 31.
Proof.
  unfold days_in_month.
  destruct (m =? 2); [by destruct (is_leap y)|].
  by destruct (_ || _).
Qed.

(** The date key is the calendar date: two well-formed start times have the
    same key exactly when their year, month and day agree. *)
Lemma date_isoformat_inj (a b : datetime) :
  valid_datetime a → valid_datetime b →
  date_isoformat a = date_isoformat b ↔
  year a = year b ∧ month a = month b ∧ day a = day b.
Proof.
  intros (Hy & Hm & Hd & _) (Hy' & Hm' & Hd' & _).
  pose proof (days_in_month_le (year a) (month a)).
  pose proof (days_in_month_le (year b) (month b)).
  split; [|unfold date_isoformat; by intros (-> & -> & ->)].
  unfold date_isoformat, pad4, pad2. simpl.
  intros [= Y3 Y2 Y1 Y0 M1 M0 D1 D0].
  split; [|split].
  - apply pad4_inj; [lia..|]. unfold pad4, pad2. congruence.
  - apply pad2_inj; [lia..|]. unfold pad2. congruence.
  - apply pad2_inj; [lia..|]. unfold pad2. congruence.
Qed.

End DateKey.

(** ** The sort *)

Lemma insert_by_start_time_perm e l l' :
  insert_by_start_time e l = Ok l' → l' ≡ₚ e :: l.
Proof.
  revert l'. induction l as [|x rest IH]; intros l'; simpl.
  - intros [= <-]. done.
  - intros Hins. apply rbind_Ok in Hins as (before & Hlt & Hins).
    destruct before.
    + apply rbind_Ok in Hins as (rest' & Hrest & [= <-]).
      rewrite (IH _ Hrest). apply Permutation_swap.
    + injection Hins as <-. done.
Qed.

Lemma insert_by_start_time_sorted e l l' :
  insert_by_start_time e l = Ok l' →
  StronglySorted instant_le l → StronglySorted instant_le l'.
Proof.
  revert l'. induction l as [|x rest IH]; intros l'; simpl.
  - intros [= <-] _. repeat constructor.
  - intros Hins Hsorted.
    apply rbind_Ok in Hins as (before & Hlt & Hins).
    apply dt_cmp_Ok in Hlt as [_ ->].
    apply StronglySorted_inv in Hsorted as [Hrest Hx].
    destruct (Z.ltb_spec (instant (start_time x)) (instant (start_time e)))
      as [Hlt|Hge].
    + apply rbind_Ok in Hins as (rest' & Hins & [= <-]).
      constructor; [by apply IH|].
      rewrite (insert_by_start_time_perm _ _ _ Hins).
      constructor; [unfold instant_le; lia | done].
    + injection Hins as <-.
      constructor; [by constructor|].
      constructor; [done|].
      eapply Forall_impl; [exact Hx|].
      unfold instant_le. intros y Hy. lia.
Qed.

(** Stability of one insertion: seen through any class of events that share
    an instant, the new event is put in front. *)
Lemma insert_by_start_time_filter (P : Event → Prop) `{!∀ x, Decision (P x)}
    e l l' :
  (∀ x y, P x → P y → instant (start_time x) = instant (start_time y)) →
  insert_by_start_time e l = Ok l' →
  filter P l' = filter P (e :: l).
Proof.
  intros Hclass. revert l'. induction l as [|x rest IH]; intros l'; simpl.
  - intros [= <-]. done.
  - intros Hins. apply rbind_Ok in Hins as (before & Hlt & Hins).
    apply dt_cmp_Ok in Hlt as [_ ->].
    destruct (Z.ltb_spec (instant (start_time x)) (instant (start_time e)))
      as [Hlt|Hge].
    + apply rbind_Ok in Hins as (rest' & Hins & [= <-]).
      specialize (IH _ Hins).
      rewrite !filter_cons in *.
      destruct (decide (P x)) as [Hx|Hx], (decide (P e)) as [He|He];
        try (rewrite IH; done).
      specialize (Hclass _ _ Hx He). lia.
    + injection Hins as <-. done.
Qed.

Lemma insert_by_start_time_is_Ok e l :
  Forall (λ x, aware (start_time x) = aware (start_time e)) l →
  is_Ok (insert_by_start_time e l).
Proof.
  induction 1 as [|x rest Hx _ IH]; simpl.
  - by eexists.
  - unfold dt_lt, dt_cmp. rewrite bool_decide_eq_true_2 by done. simpl.
    destruct (_ <? _)%Z; [|by eexists].
    destruct IH as [rest' ->]. by eexists.
Qed.

Lemma timezone_consistent_cons e l :
  timezone_consistent (e :: l) ↔
  Forall (λ x, aware (start_time x) = aware (start_time e)) l
  ∧ timezone_consistent l.
Proof.
  unfold timezone_consistent. rewrite Forall_forall. split.
  - intros Hc. split.
    + intros x Hx. apply Hc; [by right | by left].
    + intros e1 e2 H1 H2. apply Hc; by right.
  - intros [He Hl] e1 e2 [->|H1]%elem_of_cons [->|H2]%elem_of_cons.
    + done.
    + symmetry. by apply He.
    + by apply He.
    + by apply Hl.
Qed.

Lemma timezone_consistent_perm l1 l2 :
  l1 ≡ₚ l2 → timezone_consistent l1 → timezone_consistent l2.
Proof.
  intros Hp Hc e1 e2 H1 H2. apply Hc; by rewrite Hp.
Qed.

Lemma sort_by_start_time_Ok_inv l l' :
  sort_by_start_time l = Ok l' →
  l' ≡ₚ l ∧ timezone_consistent l ∧ StronglySorted instant_le l'.
Proof.
  revert l'. induction l as [|e rest IH]; intros l'; simpl.
  - intros [= <-]. split; [done|]. split; [|constructor].
    intros e1 e2 H1. by apply elem_of_nil in H1.
  - intros Hs. apply rbind_Ok in Hs as (sorted & Hsorted & Hins).
    destruct (IH _ Hsorted) as (Hperm & Hcons & Hss).
    split; [|split].
    + rewrite (insert_by_start_time_perm _ _ _ Hins). by rewrite Hperm.
    + apply timezone_consistent_cons. split; [|done].
      rewrite <- Hperm. destruct sorted as [|x sorted']; [constructor|].
      simpl in Hins. apply rbind_Ok in Hins as (before & Hlt & _).
      apply dt_cmp_Ok in Hlt as [Haw _].
      apply Forall_forall. intros y Hy. rewrite <- Haw.
      apply (timezone_consistent_perm _ _ (symmetry Hperm) Hcons);
        [done | by left].
    + by eapply insert_by_start_time_sorted.
Qed.

Lemma sort_by_start_time_is_Ok l :
  timezone_consistent l → is_Ok (sort_by_start_time l).
Proof.
  induction l as [|e rest IH]; simpl.
  - by eexists.
  - intros [He Hrest]%timezone_consistent_cons.
    destruct (IH Hrest) as [sorted Hsorted]. rewrite Hsorted. simpl.
    apply insert_by_start_time_is_Ok.
    apply sort_by_start_time_Ok_inv in Hsorted as (Hperm & _).
    by rewrite Hperm.
Qed.



Lemma sort_by_start_time_filter (P : Event → Prop) `{!∀ x, Decision (P x)}
    l l' :
  (∀ x y, P x → P y → instant (start_time x) = instant (start_time y)) →
  sort_by_start_time l = Ok l' →
  filter P l' = filter P l.
Proof.
  intros Hclass. revert l'. induction l as [|e rest IH]; intros l'; simpl.
  - intros [= <-]. done.
  - intros Hs. apply rbind_Ok in Hs as (sorted & Hsorted & Hins).
    rewrite (insert_by_start_time_filter P _ _ _ Hclass Hins).
    rewrite !filter_cons, (IH _ Hsorted). done.
Qed.

Lemma sorted_start_le l :
  timezone_consistent l → StronglySorted instant_le l →
  StronglySorted start_le l.
Proof.
  intros Hc Hs. induction Hs as [|e rest Hrest IH He]; [constructor|].
  apply timezone_consistent_cons in Hc as [Haw Hc].
  constructor; [by apply IH|].
  apply Forall_forall. intros x Hx. apply start_le_instant. split.
  - symmetry. by apply (proj1 (Forall_forall _ _) Haw).
  - by apply (proj1 (Forall_forall _ _) He).
Qed.

(** Two lists in the order of the instants that agree on every class of
    events starting at one instant are the same list: a stable sort has one
    possible result. *)
Lemma sorted_stable_unique (l1 l2 : list Event) :
  StronglySorted instant_le l1 → StronglySorted instant_le l2 →
  (∀ z, filter (starts_at z) l1 = filter (starts_at z) l2) →
  l1 = l2.
Proof.
  intros Hs1. revert l2.
  induction Hs1 as [|x l1 Hs1 IH Hx]; intros l2 Hs2 Hf.
  - destruct l2 as [|y l2]; [done|].
    specialize (Hf (instant (start_time y))).
    rewrite filter_nil, filter_cons_True in Hf by done. done.
  - destruct Hs2 as [|y l2 Hs2 Hy].
    { specialize (Hf (instant (start_time x))).
      rewrite filter_nil, filter_cons_True in Hf by done. done. }
    assert (instant (start_time x) = instant (start_time y)) as Hxy.
    { assert (y ∈ x :: l1) as Hin1.
      { eapply (list_elem_of_filter (starts_at (instant (start_time y)))).
        rewrite Hf, filter_cons_True by done. by left. }
      assert (x ∈ y :: l2) as Hin2.
      { eapply (list_elem_of_filter (starts_at (instant (start_time x)))).
        rewrite <- Hf, filter_cons_True by done. by left. }
      apply elem_of_cons in Hin1 as [->|Hin1]; [done|].
      apply elem_of_cons in Hin2 as [->|Hin2]; [done|].
      rewrite Forall_forall in Hx, Hy.
      specialize (Hx _ Hin1). specialize (Hy _ Hin2).
      unfold instant_le in *. lia. }
    pose proof (Hf (instant (start_time x))) as Hfx.
    rewrite !filter_cons_True in Hfx by done.
    injection Hfx as <- Hfx. f_equal.
    apply IH; [done|]. intros z.
    destruct (decide (starts_at z x)) as [Hz|Hz].
    + unfold starts_at in Hz. by subst z.
    + specialize (Hf z). by rewrite !filter_cons_False in Hf.
Qed.

(** Whatever stable sort [list.sort] runs, its result is the list of the
    model. *)
Lemma sort_by_start_time_unique l sorted out :
  sort_by_start_time l = Ok sorted →
  StronglySorted instant_le out →
  (∀ z, filter (starts_at z) out = filter (starts_at z) l) →
  out = sorted.
Proof.
  intros Hs Hout Hstable.
  pose proof (sort_by_start_time_Ok_inv _ _ Hs) as (_ & _ & Hsorted).
  apply sorted_stable_unique; [done..|].
  intros z. rewrite Hstable. symmetry.
  apply (sort_by_start_time_filter (starts_at z)); [|done].
  unfold starts_at. congruence.
Qed.

(** ** Deduplication *)

Lemma filter_ext_in {A : Type} (P1 P2 : A → Prop)
    `{!∀ x, Decision (P1 x), !∀ x, Decision (P2 x)} (l : list A) :
  (∀ x, x ∈ l → P1 x ↔ P2 x) → filter P1 l = filter P2 l.
Proof.
  induction l as [|a l IH]; intros Hiff; [done|].
  rewrite !filter_cons.
  rewrite IH by (intros x Hx; apply Hiff; by right).
  destruct (decide (P1 a)) as [H1|H1], (decide (P2 a)) as [H2|H2]; try done.
  - destruct H2. apply Hiff; [by left | done].
  - destruct H1. apply Hiff; [by left | done].
Qed.

Section Dedupe.
Context `{rt : Runtime}.

Lemma first_of_each_signature_snoc (seen : list Event) (e : Event) :
  first_of_each_signature (seen ++ [e])
  = first_of_each_signature seen
    ++ (if decide (signature e ∈ signature <$> seen) then [] else [e]).
Proof.
  unfold first_of_each_signature.
  rewrite imap_app, filter_app, fmap_app. f_equal.
  - f_equal. apply filter_ext_in. intros [i y] Hin. simpl.
    apply elem_of_lookup_imap_1 in Hin as (i' & y' & [= -> ->] & Hlook).
    apply lookup_lt_Some in Hlook.
    rewrite take_app_le by lia. done.
  - simpl. rewrite filter_cons, filter_nil. simpl.
    rewrite Nat.add_0_r, take_app_length.
    destruct (decide (signature e ∉ signature <$> seen)) as [Hn|Hn];
      destruct (decide (signature e ∈ signature <$> seen)) as [Hy|Hy];
      done.
Qed.

Lemma first_of_each_signature_nil : first_of_each_signature [] = [].
Proof. done. Qed.

(** The loop invariant: [sigs] holds the signatures seen so far and [merged]
    the first event of each. *)
Lemma dedupe_event_invariant (seen l : list Event) :
  foldl dedupe_event
    (list_to_set (signature <$> seen), first_of_each_signature seen) l
  = (list_to_set (signature <$> (seen ++ l)),
     first_of_each_signature (seen ++ l)).
Proof.
  revert seen. induction l as [|e l IH]; intros seen; simpl.
  - by rewrite app_nil_r.
  - replace (seen ++ e :: l) with ((seen ++ [e]) ++ l)
      by (by rewrite <- app_assoc).
    rewrite <- IH. f_equal.
    rewrite first_of_each_signature_snoc.
    destruct (decide (signature e ∈ list_to_set (signature <$> seen)))
      as [Hin|Hin]; pose proof Hin as Hin'; rewrite elem_of_list_to_set in Hin'.
    + rewrite decide_True by done. rewrite app_nil_r. f_equal.
      rewrite fmap_app, list_to_set_app_L. simpl.
      apply set_eq. intros s.
      rewrite !elem_of_union, elem_of_singleton, elem_of_empty.
      split; [tauto | intros [?|[->|[]]]; done].
    + rewrite decide_False by done. f_equal.
      rewrite fmap_app, list_to_set_app_L. simpl.
      apply set_eq. intros s.
      rewrite !elem_of_union, elem_of_singleton, elem_of_empty. tauto.
Qed.

Lemma dedupe_list_concat st (events_lists : list (list Event)) :
  foldl dedupe_list st events_lists
  = foldl dedupe_event st (concat events_lists).
Proof.
  revert st. induction events_lists as [|lst ls IH]; intros st; simpl.
  - done.
  - rewrite foldl_app. apply IH.
Qed.

Lemma dedupe_first_of_each_signature (events_lists : list (list Event)) :
  dedupe events_lists = first_of_each_signature (concat events_lists).
Proof.
  unfold dedupe. rewrite dedupe_list_concat.
  pose proof (dedupe_event_invariant [] (concat events_lists)) as Hinv.
  simpl in Hinv. rewrite first_of_each_signature_nil in Hinv.
  by rewrite Hinv.
Qed.

Lemma first_of_each_signature_sublist (all : list Event) :
  first_of_each_signature all `sublist_of` all.
Proof.
  induction all as [|e seen IH] using rev_ind; [done|].
  rewrite first_of_each_signature_snoc.
  case_decide.
  - rewrite app_nil_r. by apply sublist_inserts_r.
  - by apply sublist_app.
Qed.

Lemma first_of_each_signature_NoDup (all : list Event) :
  NoDup (signature <$> first_of_each_signature all).
Proof.
  induction all as [|e seen IH] using rev_ind; [constructor|].
  rewrite first_of_each_signature_snoc.
  case_decide as Hin.
  - by rewrite app_nil_r.
  - rewrite fmap_app. apply NoDup_app. split; [done|]. split.
    + intros s Hs [->|[]%elem_of_nil]%elem_of_cons. apply Hin.
      apply list_elem_of_fmap in Hs as (x & -> & Hx).
      apply list_elem_of_fmap. exists x. split; [done|].
      eapply elem_of_sublist; [exact Hx|].
      apply first_of_each_signature_sublist.
    + simpl. apply NoDup_singleton.
Qed.

(** Every signature of the input keeps a representative. *)
Lemma first_of_each_signature_covers (all : list Event) (e : Event) :
  e ∈ all →
  ∃ e', e' ∈ first_of_each_signature all ∧ signature e' = signature e.
Proof.
  revert e.
  induction all as [|x seen IH] using rev_ind; intros e;
    [by intros ?%elem_of_nil|].
  rewrite first_of_each_signature_snoc.
  intros [Hin|Hin]%elem_of_app.
  - destruct (IH _ Hin) as (e' & He' & Hsig). exists e'. split; [|done].
    apply elem_of_app. by left.
  - apply list_elem_of_singleton in Hin as ->.
    case_decide as Hsig.
    + apply list_elem_of_fmap in Hsig as (y & Hy & Hyin).
      destruct (IH _ Hyin) as (e' & He' & Hsig). exists e'.
      rewrite app_nil_r. split; [done | congruence].
    + exists x. split; [|done]. apply elem_of_app. right. by left.
Qed.

(** The kept events are the events that no earlier event shares a signature
    with. *)
Lemma elem_of_first_of_each_signature (all : list Event) (e : Event) :
  e ∈ first_of_each_signature all ↔
  ∃ i, all !! i = Some e ∧ signature e ∉ signature <$> take i all.
Proof.
  unfold first_of_each_signature. rewrite list_elem_of_fmap. split.
  - intros ([i y] & -> & Hin). simpl.
    apply list_elem_of_filter in Hin as [Hfirst Hin]. simpl in Hfirst.
    apply elem_of_lookup_imap_1 in Hin as (i' & y' & [= -> ->] & Hlook).
    by exists i'.
  - intros (i & Hlook & Hfirst). exists (i, e). split; [done|].
    apply list_elem_of_filter. split; [done|].
    by apply elem_of_lookup_imap_2.
Qed.

End Dedupe.

(** ** The radius filter *)

Lemma radius_loop_filter (q_lat q_lng radius_km : R)
    (events filtered : list Event) :
  radius_loop q_lat q_lng radius_km events filtered
  = filtered ++ filter (within_radius q_lat q_lng radius_km) events.
Proof.
  revert filtered. induction events as [|e events IH]; intros filtered; simpl.
  - by rewrite filter_nil, app_nil_r.
  - rewrite filter_cons. unfold decide, within_radius_dec, within_radius.
    destruct (lat e) as [e_lat|], (lng e) as [e_lng|];
      try (rewrite IH, <- app_assoc; done).
    destruct (Rle_dec _ _); rewrite IH; [by rewrite <- app_assoc | done].
Qed.

(** ** The provider loops *)

(** Splits a chain of binds that returned into its steps. *)
Ltac bind_inv H :=
  repeat (cbv beta zeta in H;
          let x := fresh "v" in
          let Hx := fresh "Hv" in
          apply rbind_Ok in H as (x & Hx & H)).

Section Adapters.
Context `{rt : Runtime}.

Lemma eventbrite_loop_app (items : list json) (events : list Event) :
  eventbrite_loop items events = events ++ eventbrite_loop items [].
Proof.
  revert events. induction items as [|item items IH]; intros events; simpl.
  - by rewrite app_nil_r.
  - destruct (eventbrite_item item) as [e|]; [|apply IH].
    rewrite IH, (IH [e]), <- app_assoc. done.
Qed.

Lemma elem_of_eventbrite_loop (items : list json) (ev : Event) :
  ev ∈ eventbrite_loop items [] ↔
  ∃ item, item ∈ items ∧ eventbrite_item item = Ok ev.
Proof.
  induction items as [|item items IH]; simpl.
  - split; [by intros ?%elem_of_nil | by intros (? & ?%elem_of_nil & _)].
  - destruct (eventbrite_item item) as [e|exc] eqn:Hitem.
    + rewrite eventbrite_loop_app. simpl. rewrite elem_of_cons, IH. split.
      * intros [->|(it & Hit & Hev)].
        -- exists item. split; [by left | done].
        -- exists it. split; [by right | done].
      * intros (it & [->|Hit]%elem_of_cons & Hev).
        -- left. congruence.
        -- right. by exists it.
    + rewrite IH. split.
      * intros (it & Hit & Hev). exists it. split; [by right | done].
      * intros (it & [->|Hit]%elem_of_cons & Hev); [congruence|].
        by exists it.
Qed.

(** Iterating over a string or over the keys of a dict yields strings, and a
    string is never an event: the order in which a dict yields its keys does
    not matter. *)
Lemma eventbrite_loop_strings (keys : list string) :
  eventbrite_loop (JStr <$> keys) [] = [].
Proof. induction keys as [|k keys IH]; simpl; done. Qed.

Lemma campus_loop_app page_url start_date end_date (divs : list event_item)
    (events : list Event) :
  campus_loop page_url start_date end_date divs events
  = events ++ campus_loop page_url start_date end_date divs [].
Proof.
  revert events. induction divs as [|div divs IH]; intros events; simpl.
  - by rewrite app_nil_r.
  - destruct (campus_item _ _ _ div) as [[e|]|]; try apply IH.
    rewrite IH, (IH [e]), <- app_assoc. done.
Qed.

Lemma elem_of_campus_loop page_url start_date end_date
    (divs : list event_item) (ev : Event) :
  ev ∈ campus_loop page_url start_date end_date divs [] ↔
  ∃ div, div ∈ divs
         ∧ campus_item page_url start_date end_date div = Ok (Some ev).
Proof.
  induction divs as [|div divs IH]; simpl.
  - split; [by intros ?%elem_of_nil | by intros (? & ?%elem_of_nil & _)].
  - destruct (campus_item _ _ _ div) as [[e|]|exc] eqn:Hitem.
    + rewrite campus_loop_app. simpl. rewrite elem_of_cons, IH. split.
      * intros [->|(it & Hit & Hev)].
        -- exists div. split; [by left | done].
        -- exists it. split; [by right | done].
      * intros (it & [->|Hit]%elem_of_cons & Hev).
        -- left. congruence.
        -- right. by exists it.
    + rewrite IH. split.
      * intros (it & Hit & Hev). exists it. split; [by right | done].
      * intros (it & [->|Hit]%elem_of_cons & Hev); [congruence|].
        by exists it.
    + rewrite IH. split.
      * intros (it & Hit & Hev). exists it. split; [by right | done].
      * intros (it & [->|Hit]%elem_of_cons & Hev); [congruence|].
        by exists it.
Qed.

(** What the campus provider puts in an event. *)
Lemma campus_item_Some page_url start_date end_date div ev :
  campus_item page_url start_date end_date div = Ok (Some ev) →
  lat ev = None ∧ lng ev = None ∧ source ev = "Campus"
  ∧ fromisoformat (text_or (event_date div) "") = Some (start_time ev)
  ∧ dt_le start_date (start_time ev) = Ok true
  ∧ dt_le (start_time ev) end_date = Ok true.
Proof.
  unfold campus_item, in_range.
  destruct (fromisoformat _) as [start|] eqn:Hparse; simpl; [|done].
  destruct (dt_le start_date start) as [[|]|] eqn:Hlo; simpl; try done.
  destruct (dt_le start end_date) as [[|]|] eqn:Hhi; simpl; try done.
  intros [= <-]. simpl. done.
Qed.

(** [venue.get(key)] decides alone whether the coordinate is present. *)
Lemma coordinate_Ok (venue : json) (key : string) (o : option R) :
  coordinate venue key = Ok o →
  ∃ m, venue = JObj m
       ∧ (is_Some o ↔ truthy (default JNull (m !! key)) = true).
Proof.
  unfold coordinate. intros Hc. bind_inv Hc.
  destruct venue as [| | | | |m]; try done. injection Hv as <-.
  exists m. split; [done|].
  destruct (truthy _).
  - bind_inv Hc. injection Hc as <-. split; [done | by eexists].
  - injection Hc as <-. split; [by intros [? ?] | done].
Qed.

(** What the Eventbrite provider puts in an event. *)
Lemma eventbrite_item_Ok (item : json) (ev : Event) :
  eventbrite_item item = Ok ev →
  source ev = "Eventbrite"
  ∧ (∃ start_obj, py_index item "start" = Ok start_obj
                  ∧ parse_utc start_obj = Ok (start_time ev))
  ∧ ∃ venue, item_venue item = Ok venue
             ∧ coordinate venue "latitude" = Ok (lat ev)
             ∧ coordinate venue "longitude" = Ok (lng ev).
Proof.
  unfold eventbrite_item. intros Hitem. bind_inv Hitem.
  injection Hitem as <-. simpl. split; [done|]. split; eauto.
Qed.

End Adapters.

(** ** Missing configuration *)

Lemma getenv_unset (w : world) (name : string) :
  environ w !! name = None → getenv w name = None.
Proof. unfold getenv. by intros ->. Qed.

(** An empty value counts as no value ([if not token]). *)
Lemma getenv_empty (w : world) (name : string) :
  environ w !! name = Some EmptyString → getenv w name = None.
Proof. unfold getenv. by intros ->. Qed.

Section Pipeline.
Context `{rt : Runtime}.

Lemma dedupe_sublist (events_lists : list (list Event)) :
  dedupe events_lists `sublist_of` concat events_lists.
Proof.
  rewrite dedupe_first_of_each_signature.
  apply first_of_each_signature_sublist.
Qed.

Lemma merge_and_dedupe_Ok_inv (events_lists : list (list Event)) out :
  merge_and_dedupe events_lists = Ok out →
  out ≡ₚ dedupe events_lists
  ∧ timezone_consistent (dedupe events_lists)
  ∧ StronglySorted start_le out.
Proof.
  unfold merge_and_dedupe. intros Hs.
  destruct (sort_by_start_time_Ok_inv _ _ Hs) as (Hperm & Hcons & Hsorted).
  split; [done|]. split; [done|].
  apply sorted_start_le; [|done].
  by apply (timezone_consistent_perm _ _ (symmetry Hperm)).
Qed.

Lemma merge_and_dedupe_submseteq (events_lists : list (list Event)) out :
  merge_and_dedupe events_lists = Ok out → out ⊆+ concat events_lists.
Proof.
  intros (Hperm & _)%merge_and_dedupe_Ok_inv. rewrite Hperm.
  apply sublist_submseteq, dedupe_sublist.
Qed.

Lemma get_events_for_query_Ok_inv w q_lat q_lng radius_km start_date end_date
    out :
  get_events_for_query w q_lat q_lng radius_km start_date end_date = Ok out →
  ∃ eb campus events,
    fetch_eventbrite_events w q_lat q_lng radius_km start_date end_date = Ok eb
    ∧ fetch_campus_events w start_date end_date = Ok campus
    ∧ merge_and_dedupe [eb; campus] = Ok events
    ∧ out = filter (within_radius q_lat q_lng radius_km) events.
Proof.
  unfold get_events_for_query. intros Hq.
  apply rbind_Ok in Hq as (eb & Heb & Hq).
  apply rbind_Ok in Hq as (campus & Hcampus & Hq).
  apply rbind_Ok in Hq as (events & Hmerge & Hq).
  injection Hq as <-. exists eb, campus, events.
  by rewrite radius_loop_filter.
Qed.

Lemma get_events_for_query_Ok w q_lat q_lng radius_km start_date end_date
    eb campus events :
  fetch_eventbrite_events w q_lat q_lng radius_km start_date end_date = Ok eb →
  fetch_campus_events w start_date end_date = Ok campus →
  merge_and_dedupe [eb; campus] = Ok events →
  get_events_for_query w q_lat q_lng radius_km start_date end_date
  = Ok (filter (within_radius q_lat q_lng radius_km) events).
Proof.
  unfold get_events_for_query. intros -> -> Hmerge. simpl.
  rewrite Hmerge. simpl. by rewrite radius_loop_filter.
Qed.

Lemma fetch_campus_events_source w start_date end_date campus ev :
  fetch_campus_events w start_date end_date = Ok campus → ev ∈ campus →
  ∃ page_url div,
    campus_item page_url start_date end_date div = Ok (Some ev).
Proof.
  unfold fetch_campus_events. destruct (getenv _ _) as [page_url|].
  - intros Hf. apply rbind_Ok in Hf as (divs & _ & [= <-]).
    intros (div & _ & Hdiv)%elem_of_campus_loop. by exists page_url, div.
  - intros [= <-] ?%elem_of_nil. done.
Qed.

Lemma fetch_eventbrite_events_source w q_lat q_lng radius_km start_date
    end_date eb ev :
  fetch_eventbrite_events w q_lat q_lng radius_km start_date end_date = Ok eb →
  ev ∈ eb → ∃ item, eventbrite_item item = Ok ev.
Proof.
  unfold fetch_eventbrite_events. destruct (getenv _ _) as [token|].
  - intros Hf. bind_inv Hf. injection Hf as <-.
    intros (item & _ & Hitem)%elem_of_eventbrite_loop. by exists item.
  - intros [= <-] ?%elem_of_nil. done.
Qed.

(** C6. When the configuration an adapter needs is absent from the
    environment (the API token for Eventbrite, the page URL for the campus
    adapter), the adapter returns the empty list instead of raising, and
    the query is the pipeline run on the other adapter's list alone: every
    event it returns comes from the other source. *)
Theorem missing_configuration_contributes_nothing (w : world)
    (q_lat q_lng radius_km : R) (start_date end_date : datetime) :
  (environ w !! "EVENTBRITE_TOKEN" = None →
     fetch_eventbrite_events w q_lat q_lng radius_km start_date end_date
     = Ok []
     ∧ get_events_for_query w q_lat q_lng radius_km start_date end_date
       = (campus_events ← fetch_campus_events w start_date end_date;
          events ← merge_and_dedupe [[]; campus_events];
          Ok (radius_loop q_lat q_lng radius_km events []))
     ∧ ∀ out e,
         get_events_for_query w q_lat q_lng radius_km start_date end_date
         = Ok out →
         e ∈ out → source e = "Campus")
  ∧ (environ w !! "CAMPUS_EVENTS_URL" = None →
     fetch_campus_events w start_date end_date = Ok []
     ∧ get_events_for_query w q_lat q_lng radius_km start_date end_date
       = (events_from_eventbrite ←
            fetch_eventbrite_events w q_lat q_lng radius_km start_date
              end_date;
          events ← merge_and_dedupe [events_from_eventbrite; []];
          Ok (radius_loop q_lat q_lng radius_km events []))
     ∧ ∀ out e,
         get_events_for_query w q_lat q_lng radius_km start_date end_date
         = Ok out →
         e ∈ out → source e = "Eventbrite").
Proof.
  split; intros Hunset%getenv_unset.
  - assert (fetch_eventbrite_events w q_lat q_lng radius_km start_date
              end_date = Ok []) as Heb.
    { unfold fetch_eventbrite_events. by rewrite Hunset. }
    split; [done|]. split.
    { unfold get_events_for_query. by rewrite Heb. }
    intros out e Hq He.
    apply get_events_for_query_Ok_inv in Hq
      as (eb & campus & events & Heb' & Hcampus & Hmerge & ->).
    rewrite Heb in Heb'. injection Heb' as <-.
    apply list_elem_of_filter in He as [_ He].
    apply merge_and_dedupe_submseteq in Hmerge. simpl in Hmerge.
    rewrite app_nil_r in Hmerge.
    pose proof (elem_of_submseteq _ _ _ He Hmerge) as Hin.
    destruct (fetch_campus_events_source _ _ _ _ _ Hcampus Hin)
      as (page_url & div & Hdiv).
    apply campus_item_Some in Hdiv. tauto.
  - assert (fetch_campus_events w start_date end_date = Ok []) as Hcampus.
    { unfold fetch_campus_events. by rewrite Hunset. }
    split; [done|]. split.
    { unfold get_events_for_query.
      destruct (fetch_eventbrite_events _ _ _ _ _ _); [|done].
      simpl. by rewrite Hcampus. }
    intros out e Hq He.
    apply get_events_for_query_Ok_inv in Hq
      as (eb & campus & events & Heb & Hcampus' & Hmerge & ->).
    rewrite Hcampus in Hcampus'. injection Hcampus' as <-.
    apply list_elem_of_filter in He as [_ He].
    apply merge_and_dedupe_submseteq in Hmerge. simpl in Hmerge.
    rewrite app_nil_r in Hmerge.
    pose proof (elem_of_submseteq _ _ _ He Hmerge) as Hin.
    destruct (fetch_eventbrite_events_source _ _ _ _ _ _ _ _ Heb Hin)
      as (item & Hitem).
    apply eventbrite_item_Ok in Hitem. tauto.
Qed.

End Pipeline.

Lemma missing_configuration_witness :
  environ Scenario.unconfigured !! "EVENTBRITE_TOKEN" = None
  ∧ environ Scenario.unconfigured !! "CAMPUS_EVENTS_URL" = None
  ∧ fetch_eventbrite_events (rt := py_runtime) Scenario.unconfigured
      40 (-73) 5 Scenario.query_start Scenario.query_end = Ok []
  ∧ fetch_campus_events (rt := py_runtime) Scenario.unconfigured
      Scenario.query_start Scenario.query_end = Ok [].
Proof.
  destruct (missing_configuration_contributes_nothing (rt := py_runtime)
              Scenario.unconfigured 40 (-73) 5
              Scenario.query_start Scenario.query_end) as [Heb Hcampus].
  split; [reflexivity|]. split; [reflexivity|]. split.
  - apply Heb. reflexivity.
  - apply Hcampus. reflexivity.
Defined.

(** ** Failures of an upstream source *)

(** [requests.get] and [raise_for_status] raise exactly when there is no
    response or the status is a 4xx or 5xx one. *)
Lemma get_checked_Raise {A : Type} (r : http_reply A) (exc : exn) :
  get_checked r = Raise exc ↔
  (r = Unreachable ∧ exc = ConnectionError)
  ∨ (∃ status body, r = Reply status body
                    ∧ (400 ≤ status < 600)%Z ∧ exc = HTTPError).
Proof.
  destruct r as [|status body]; simpl.
  - split; [intros [= <-]; by left|].
    intros [[_ ->]|(? & ? & ? & _)]; done.
  - destruct (Z.leb_spec 400 status), (Z.ltb_spec status 600); simpl;
      (split; [intros [= <-] | intros [[? _]|(s & b & [= <- <-] & ? & ->)]]);
      try done; try lia.
    right. exists status, body. split; [done|]. split; [lia | done].
Qed.

Example server_error_raises {A : Type} (body : A) :
  get_checked (Reply 503 body) = Raise HTTPError.
Proof. reflexivity. Qed.

Section Failures.
Context `{rt : Runtime}.

(** The campus adapter absorbs every malformed block: once the page has
    been fetched, it returns a list. *)
Lemma fetch_campus_events_page_Ok w start_date end_date page_url status divs :
  getenv w "CAMPUS_EVENTS_URL" = Some page_url →
  web_page w page_url = Reply status divs →
  ¬ (400 ≤ status < 600)%Z →
  fetch_campus_events w start_date end_date
  = Ok (campus_loop page_url start_date end_date divs []).
Proof.
  intros Henv Hpage Hstatus. unfold fetch_campus_events.
  rewrite Henv, Hpage. simpl.
  destruct (Z.leb_spec 400 status), (Z.ltb_spec status 600); simpl;
    try done; lia.
Qed.

(** The Eventbrite adapter absorbs every malformed item of a well-formed
    payload. *)
Lemma fetch_eventbrite_events_payload_Ok w q_lat q_lng radius_km start_date
    end_date token status m items :
  getenv w "EVENTBRITE_TOKEN" = Some token →
  eventbrite_search w
    {| location_latitude := q_lat; location_longitude := q_lng;
       location_within := radius_km; range_start := start_date;
       range_end := end_date; bearer := token |}
  = Reply status (Some (JObj m)) →
  ¬ (400 ≤ status < 600)%Z →
  m !! "events" = Some (JArr items) →
  fetch_eventbrite_events w q_lat q_lng radius_km start_date end_date
  = Ok (eventbrite_loop items []).
Proof.
  intros Henv Hreply Hstatus Hevents. unfold fetch_eventbrite_events.
  rewrite Henv, Hreply. simpl.
  destruct (Z.leb_spec 400 status), (Z.ltb_spec status 600); simpl;
    try lia; by rewrite Hevents.
Qed.

(** C1, as the code has it. A network or HTTP failure of an upstream source
    whose configuration is present is not absorbed by the pipeline: the
    exception leaves the adapter and [get_events_for_query], so the results
    of the other adapter are not returned; the caller [index()] catches it
    and shows no events. *)
Theorem upstream_failure_propagates_to_caller (w : world)
    (q_lat q_lng radius_km : R) (start_date end_date : datetime) (exc : exn) :
  (∃ token,
     getenv w "EVENTBRITE_TOKEN" = Some token
     ∧ get_checked
         (eventbrite_search w
            {| location_latitude := q_lat; location_longitude := q_lng;
               location_within := radius_km; range_start := start_date;
               range_end := end_date; bearer := token |})
       = Raise exc)
  ∨ (is_Ok (fetch_eventbrite_events w q_lat q_lng radius_km start_date
              end_date)
     ∧ ∃ page_url,
         getenv w "CAMPUS_EVENTS_URL" = Some page_url
         ∧ get_checked (web_page w page_url) = Raise exc) →
  get_events_for_query w q_lat q_lng radius_km start_date end_date
  = Raise exc
  ∧ index_events w q_lat q_lng radius_km start_date end_date = [].
Proof.
  intros Hfail.
  assert (get_events_for_query w q_lat q_lng radius_km start_date end_date
          = Raise exc) as Hq.
  { unfold get_events_for_query.
    destruct Hfail as [(token & Henv & Hget)|([eb Heb] & page_url & Henv & Hget)].
    - unfold fetch_eventbrite_events. rewrite Henv. simpl.
      by rewrite Hget.
    - rewrite Heb. simpl. unfold fetch_campus_events. rewrite Henv. simpl.
      by rewrite Hget. }
  split; [done|]. unfold index_events. by rewrite Hq.
Qed.

End Failures.

Lemma upstream_failure_witness :
  get_events_for_query (rt := py_runtime) Scenario.eventbrite_down
    40 (-73) 5 Scenario.query_start Scenario.query_end
  = Raise ConnectionError
  ∧ index_events (rt := py_runtime) Scenario.eventbrite_down
      40 (-73) 5 Scenario.query_start Scenario.query_end = [].
Proof.
  apply (upstream_failure_propagates_to_caller (rt := py_runtime)
           Scenario.eventbrite_down 40 (-73) 5
           Scenario.query_start Scenario.query_end ConnectionError).
  left. exists "secret". split; reflexivity.
Defined.

(** C1, as the specification states it, fails: Eventbrite cannot be
    reached while the campus page lists an event; the query raises
    [ConnectionError] instead of returning the campus event. *)
Lemma unreachable_source_aborts_query :
  fetch_campus_events (rt := py_runtime) Scenario.eventbrite_down
    Scenario.query_start Scenario.query_end = Ok [Scenario.art_walk]
  ∧ get_events_for_query (rt := py_runtime) Scenario.eventbrite_down
      40 (-73) 5 Scenario.query_start Scenario.query_end
    = Raise ConnectionError
  ∧ ¬ is_Ok (get_events_for_query (rt := py_runtime) Scenario.eventbrite_down
               40 (-73) 5 Scenario.query_start Scenario.query_end).
Proof.
  split; [vm_compute; reflexivity|].
  assert (get_events_for_query (rt := py_runtime) Scenario.eventbrite_down
            40 (-73) 5 Scenario.query_start Scenario.query_end
          = Raise ConnectionError) as Hq by (vm_compute; reflexivity).
  split; [exact Hq|]. rewrite Hq. intros [out Hout]. discriminate.
Qed.

(** ** Time zones *)

Section TimeZones.
Context `{rt : Runtime}.

Lemma timezone_consistent_sublist (l1 l2 : list Event) :
  l1 `sublist_of` l2 → timezone_consistent l2 → timezone_consistent l1.
Proof.
  intros Hsub Hc e1 e2 H1 H2.
  apply Hc; eapply elem_of_sublist; eauto.
Qed.

Lemma merge_and_dedupe_is_Ok (events_lists : list (list Event)) :
  timezone_consistent (dedupe events_lists) →
  is_Ok (merge_and_dedupe events_lists).
Proof. apply sort_by_start_time_is_Ok. Qed.

End TimeZones.

(** C5. The code does not have the property: no adapter and no step of the
    aggregator normalises [tzinfo]. With both sources configured, the
    Eventbrite adapter parses a timestamp that ends in [Z] as an aware
    datetime and the campus adapter parses ["YYYY-MM-DD HH:MM"] as a naive
    one; the two start times are not timezone-consistent, the sort of the
    merge step raises [TypeError], the query raises it, and the page shows
    no event. *)
Theorem aware_and_naive_start_times_meet :
  fetch_eventbrite_events (rt := py_runtime) Scenario.both_up 40 (-73) 5
    Scenario.query_start Scenario.query_end = Ok [Scenario.jazz]
  ∧ fetch_campus_events (rt := py_runtime) Scenario.both_up
      Scenario.query_start Scenario.query_end = Ok [Scenario.art_walk]
  ∧ aware (start_time Scenario.jazz) = true
  ∧ aware (start_time Scenario.art_walk) = false
  ∧ ¬ timezone_consistent ([Scenario.jazz] ++ [Scenario.art_walk])
  ∧ dt_le (start_time Scenario.jazz) (start_time Scenario.art_walk)
    = Raise TypeError
  ∧ merge_and_dedupe (rt := py_runtime)
      [[Scenario.jazz]; [Scenario.art_walk]] = Raise TypeError
  ∧ get_events_for_query (rt := py_runtime) Scenario.both_up 40 (-73) 5
      Scenario.query_start Scenario.query_end = Raise TypeError
  ∧ index_events (rt := py_runtime) Scenario.both_up 40 (-73) 5
      Scenario.query_start Scenario.query_end = [].
Proof.
  split; [vm_compute; reflexivity|].
  split; [vm_compute; reflexivity|].
  split; [reflexivity|]. split; [reflexivity|].
  split.
  - intros Hc.
    specialize (Hc Scenario.jazz Scenario.art_walk).
    simpl in Hc. discriminate Hc; [by left | right; by left].
  - split; [reflexivity|].
    split; [vm_compute; reflexivity|].
    split; vm_compute; reflexivity.
Qed.

(** ** Coordinates *)

Section Coordinates.
Context `{rt : Runtime}.

(** C7, as the code has it. An event of the campus adapter has neither
    coordinate. In an event of the Eventbrite adapter each coordinate is
    set on its own: [lat] is present exactly when the venue's ["latitude"]
    is truthy, [lng] exactly when its ["longitude"] is. *)
Theorem coordinates_set_independently :
  (∀ w start_date end_date campus ev,
     fetch_campus_events w start_date end_date = Ok campus → ev ∈ campus →
     lat ev = None ∧ lng ev = None)
  ∧ (∀ w q_lat q_lng radius_km start_date end_date eb ev,
       fetch_eventbrite_events w q_lat q_lng radius_km start_date end_date
       = Ok eb →
       ev ∈ eb →
       ∃ item venue,
         eventbrite_item item = Ok ev
         ∧ item_venue item = Ok (JObj venue)
         ∧ (is_Some (lat ev)
            ↔ truthy (default JNull (venue !! "latitude")) = true)
         ∧ (is_Some (lng ev)
            ↔ truthy (default JNull (venue !! "longitude")) = true)).
Proof.
  split.
  - intros w start_date end_date campus ev Hcampus Hev.
    destruct (fetch_campus_events_source _ _ _ _ _ Hcampus Hev)
      as (page_url & div & Hdiv).
    apply campus_item_Some in Hdiv. tauto.
  - intros w q_lat q_lng radius_km start_date end_date eb ev Heb Hev.
    destruct (fetch_eventbrite_events_source _ _ _ _ _ _ _ _ Heb Hev)
      as (item & Hitem).
    destruct (eventbrite_item_Ok _ _ Hitem)
      as (_ & _ & venue & Hvenue & Hlat & Hlng).
    apply coordinate_Ok in Hlat as (m & -> & Hlat).
    apply coordinate_Ok in Hlng as (m' & [= <-] & Hlng).
    by exists item, m.
Qed.

End Coordinates.

Lemma coordinates_witness :
  (lat Scenario.art_walk = None ∧ lng Scenario.art_walk = None)
  ∧ ∃ item venue,
      eventbrite_item (rt := py_runtime) item = Ok Scenario.half_located
      ∧ item_venue item = Ok (JObj venue)
      ∧ (is_Some (lat Scenario.half_located)
         ↔ truthy (default JNull (venue !! "latitude")) = true)
      ∧ (is_Some (lng Scenario.half_located)
         ↔ truthy (default JNull (venue !! "longitude")) = true).
Proof.
  destruct (coordinates_set_independently (rt := py_runtime))
    as [Hcampus Heventbrite].
  split.
  - apply (Hcampus Scenario.both_up Scenario.query_start Scenario.query_end
             [Scenario.art_walk] Scenario.art_walk).
    + vm_compute. reflexivity.
    + by left.
  - apply (Heventbrite Scenario.half_position 40%R (-73)%R 5%R
             Scenario.query_start Scenario.query_end
             [Scenario.half_located] Scenario.half_located).
    + vm_compute. reflexivity.
    + by left.
Defined.

(** C7, as the specification states it, fails: Eventbrite answers with a
    venue that has a latitude and no longitude, and the adapter produces an
    event with [lat] present and [lng] absent. *)
Lemma latitude_without_longitude :
  fetch_eventbrite_events (rt := py_runtime) Scenario.half_position
    40 (-73) 5 Scenario.query_start Scenario.query_end
  = Ok [Scenario.half_located]
  ∧ is_Some (lat Scenario.half_located)
  ∧ lng Scenario.half_located = None
  ∧ ¬ paired_coordinates Scenario.half_located.
Proof.
  split; [vm_compute; reflexivity|].
  split; [by eexists|]. split; [done|].
  intros [Hpair _]. destruct Hpair as [x Hx]; [by eexists | done].
Qed.

(** ** The merge step *)

Section Merge.
Context `{rt : Runtime}.

(** C2. [merge_and_dedupe] computes for each event the signature (lowercased
    title, calendar date of [start_time], lowercased venue name; two
    well-formed start times have one date key exactly when they fall on one
    calendar day) and keeps, of the lists concatenated in adapter order,
    exactly the events that no earlier event shares a signature with: one
    event per signature, the first one. In particular, of two events with
    one signature that come from two sources, the output holds the one of
    the earlier source and not the other. *)
Theorem merge_keeps_first_event_of_each_signature
    (events_lists : list (list Event)) :
  (∀ e, signature e
        = (str_lower (title e), date_isoformat (start_time e),
           str_lower (venue_name e)))
  ∧ (∀ e1 e2,
       valid_datetime (start_time e1) → valid_datetime (start_time e2) →
       signature e1 = signature e2 ↔
       str_lower (title e1) = str_lower (title e2)
       ∧ (year (start_time e1) = year (start_time e2)
          ∧ month (start_time e1) = month (start_time e2)
          ∧ day (start_time e1) = day (start_time e2))
       ∧ str_lower (venue_name e1) = str_lower (venue_name e2))
  ∧ dedupe events_lists = first_of_each_signature (concat events_lists)
  ∧ (∀ out, merge_and_dedupe events_lists = Ok out →
       out ≡ₚ first_of_each_signature (concat events_lists)
       ∧ NoDup (signature <$> out)
       ∧ (∀ e, e ∈ concat events_lists →
            ∃ e', e' ∈ out ∧ signature e' = signature e)
       ∧ (∀ e, e ∈ out ↔
            ∃ i, concat events_lists !! i = Some e
                 ∧ signature e ∉ signature <$> take i (concat events_lists)))
  ∧ (∀ e1 e2, signature e1 = signature e2 →
       merge_and_dedupe [[e1]; [e2]] = Ok [e1]).
Proof.
  split; [done|]. split.
  { intros e1 e2 Hv1 Hv2. unfold signature.
    rewrite <- (date_isoformat_inj _ _ Hv1 Hv2). split.
    - intros Hsig. split; [|split].
      + exact (f_equal (λ p, p.1.1) Hsig).
      + exact (f_equal (λ p, p.1.2) Hsig).
      + exact (f_equal (λ p, p.2) Hsig).
    - intros (Htitle & Hdate & Hvenue). by rewrite Htitle, Hdate, Hvenue. }
  split; [apply dedupe_first_of_each_signature|]. split.
  - intros out (Hperm & _)%merge_and_dedupe_Ok_inv.
    rewrite dedupe_first_of_each_signature in Hperm.
    split; [done|]. split; [|split].
    + rewrite Hperm. apply first_of_each_signature_NoDup.
    + intros e He.
      destruct (first_of_each_signature_covers _ _ He) as (e' & He' & Hsig).
      exists e'. by rewrite Hperm.
    + intros e. rewrite Hperm. apply elem_of_first_of_each_signature.
  - intros e1 e2 Hsig. unfold merge_and_dedupe, dedupe. simpl.
    rewrite decide_False by (apply not_elem_of_empty).
    unfold dedupe_event. rewrite <- Hsig.
    rewrite decide_True
      by (apply elem_of_union; left; by apply elem_of_singleton).
    done.
Qed.

(** C4. The list returned by the merge step is in non-decreasing order of
    [start_time], and the events with equal start times are in the order
    the dedup step left them in. The step returns a list exactly when the
    start times it has to compare are timezone-consistent. *)
Theorem merge_sorted_by_start_time_stable (events_lists : list (list Event)) :
  (is_Ok (merge_and_dedupe events_lists)
   ↔ timezone_consistent (dedupe events_lists))
  ∧ ∀ out, merge_and_dedupe events_lists = Ok out →
      StronglySorted start_le out
      ∧ out ≡ₚ dedupe events_lists
      ∧ ∀ t, filter (same_start t) out
             = filter (same_start t) (dedupe events_lists).
Proof.
  split.
  - split; [|apply merge_and_dedupe_is_Ok].
    intros [out Hout]. by apply merge_and_dedupe_Ok_inv in Hout as (_ & ? & _).
  - intros out Hout.
    destruct (merge_and_dedupe_Ok_inv _ _ Hout) as (Hperm & _ & Hsorted).
    split; [done|]. split; [done|]. intros t.
    apply (sort_by_start_time_filter (same_start t)); [|done].
    unfold same_start. intros x y [_ ->] [_ ->]. done.
Qed.

End Merge.

Lemma merge_keeps_first_witness :
  merge_and_dedupe (rt := py_runtime)
    [[Scenario.talk; Scenario.lunch]; [Scenario.talk_relisted; Scenario.panel]]
  = Ok [Scenario.lunch; Scenario.talk; Scenario.panel]
  ∧ NoDup (signature (rt := py_runtime)
           <$> [Scenario.lunch; Scenario.talk; Scenario.panel])
  ∧ merge_and_dedupe (rt := py_runtime)
      [[Scenario.talk]; [Scenario.talk_relisted]] = Ok [Scenario.talk].
Proof.
  assert (merge_and_dedupe (rt := py_runtime)
            [[Scenario.talk; Scenario.lunch];
             [Scenario.talk_relisted; Scenario.panel]]
          = Ok [Scenario.lunch; Scenario.talk; Scenario.panel]) as Hout
    by (vm_compute; reflexivity).
  destruct (merge_keeps_first_event_of_each_signature (rt := py_runtime)
              [[Scenario.talk; Scenario.lunch];
               [Scenario.talk_relisted; Scenario.panel]])
    as (_ & _ & _ & Hkept & Htwo).
  split; [exact Hout|]. split.
  - exact (proj1 (proj2 (Hkept _ Hout))).
  - apply Htwo. reflexivity.
Defined.

Lemma merge_sorted_witness :
  StronglySorted start_le [Scenario.lunch; Scenario.talk; Scenario.panel]
  ∧ filter (same_start (start_time Scenario.talk))
      [Scenario.lunch; Scenario.talk; Scenario.panel]
    = filter (same_start (start_time Scenario.talk))
        (dedupe (rt := py_runtime)
           [[Scenario.talk; Scenario.lunch];
            [Scenario.talk_relisted; Scenario.panel]]).
Proof.
  destruct (merge_sorted_by_start_time_stable (rt := py_runtime)
              [[Scenario.talk; Scenario.lunch];
               [Scenario.talk_relisted; Scenario.panel]])
    as [_ Hsorted].
  destruct (Hsorted [Scenario.lunch; Scenario.talk; Scenario.panel])
    as (Hss & _ & Hstable).
  - vm_compute. reflexivity.
  - split; [exact Hss | apply Hstable].
Defined.

Example stable_order_probe :
  filter (same_start (start_time Scenario.talk))
    [Scenario.lunch; Scenario.talk; Scenario.panel]
  = [Scenario.talk; Scenario.panel].
Proof. vm_compute. reflexivity. Qed.

(** ** The query *)

Section Query.
Context `{rt : Runtime}.



(** C8. Every record the query returns is a record of one of the adapters'
    lists, unchanged: the output is a sub-multiset of the two lists, so the
    aggregator only drops and reorders records. *)
Theorem aggregator_only_reorders_and_filters (w : world)
    (q_lat q_lng radius_km : R) (start_date end_date : datetime)
    (eb campus out : list Event) :
  fetch_eventbrite_events w q_lat q_lng radius_km start_date end_date = Ok eb →
  fetch_campus_events w start_date end_date = Ok campus →
  get_events_for_query w q_lat q_lng radius_km start_date end_date = Ok out →
  out ⊆+ eb ++ campus
  ∧ (∀ e, e ∈ out → e ∈ eb ∨ e ∈ campus)
  ∧ ∀ events, merge_and_dedupe [eb; campus] = Ok events →
      out `sublist_of` events ∧ events ≡ₚ dedupe [eb; campus]
      ∧ dedupe [eb; campus] `sublist_of` eb ++ campus.
Proof.
  intros Heb Hcampus Hq.
  apply get_events_for_query_Ok_inv in Hq
    as (eb' & campus' & events & Heb' & Hcampus' & Hmerge & ->).
  rewrite Heb in Heb'. rewrite Hcampus in Hcampus'.
  injection Heb' as <-. injection Hcampus' as <-.
  assert (filter (within_radius q_lat q_lng radius_km) events ⊆+ eb ++ campus)
    as Hsub.
  { transitivity events.
    - apply sublist_submseteq, sublist_filter.
    - apply merge_and_dedupe_submseteq in Hmerge. simpl in Hmerge.
      by rewrite app_nil_r in Hmerge. }
  split; [done|]. split.
  - intros e He. apply elem_of_app. by eapply elem_of_submseteq.
  - intros events' Hmerge'. rewrite Hmerge in Hmerge'. injection Hmerge' as <-.
    split; [apply sublist_filter|]. split.
    + by apply merge_and_dedupe_Ok_inv in Hmerge as (? & _).
    + pose proof (dedupe_sublist [eb; campus]) as Hd. simpl in Hd.
      by rewrite app_nil_r in Hd.
Qed.

End Query.

Lemma end_to_end_fetch :
  fetch_eventbrite_events (rt := py_runtime) Scenario.end_to_end
    (400 / 10) (- (730 / 10)) 5 Scenario.query_start Scenario.query_end
  = Ok [Scenario.jazz_located]
  ∧ fetch_campus_events (rt := py_runtime) Scenario.end_to_end
      Scenario.query_start Scenario.query_end
    = Ok [Scenario.jazz_on_campus; Scenario.art_walk]
  ∧ merge_and_dedupe (rt := py_runtime)
      [[Scenario.jazz_located]; [Scenario.jazz_on_campus; Scenario.art_walk]]
    = Ok [Scenario.jazz_located; Scenario.art_walk].
Proof. repeat split; vm_compute; reflexivity. Qed.

(** The end-to-end scenario of the specification: the concert is listed by
    both sources, at the query origin; the result is Eventbrite's copy and
    then the campus event. *)
Example end_to_end_query :
  get_events_for_query (rt := py_runtime) Scenario.end_to_end
    (400 / 10) (- (730 / 10)) 5 Scenario.query_start Scenario.query_end
  = Ok [Scenario.jazz_located; Scenario.art_walk].
Proof.
  destruct end_to_end_fetch as (Heb & Hcampus & Hmerge).
  rewrite (get_events_for_query_Ok _ _ _ _ _ _ _ _ _ Heb Hcampus Hmerge).
  f_equal. rewrite filter_cons_True.
  - by rewrite filter_cons_True.
  - unfold within_radius. simpl. rewrite haversine_km_same. lra.
Qed.

Lemma along_the_equator_fetch :
  fetch_eventbrite_events (rt := py_runtime) Scenario.along_the_equator
    0 0 10 Scenario.query_start Scenario.query_end
  = Ok [Scenario.quay_concert; Scenario.island_concert]
  ∧ fetch_campus_events (rt := py_runtime) Scenario.along_the_equator
      Scenario.query_start Scenario.query_end
    = Ok [Scenario.art_walk]
  ∧ merge_and_dedupe (rt := py_runtime)
      [[Scenario.quay_concert; Scenario.island_concert]; [Scenario.art_walk]]
    = Ok [Scenario.quay_concert; Scenario.island_concert; Scenario.art_walk].
Proof.
  split; [vm_compute; reflexivity|]. split; vm_compute; reflexivity.
Qed.

(** One degree of longitude on the equator is more than 10 km. *)
Lemma island_concert_far : (10 < haversine_km 0 0 0 1)%R.
Proof.
  assert (Rabs (1 - 0) = 1%R) as Habs
    by (replace (1 - 0)%R with 1%R by lra; apply Rabs_right; lra).
  rewrite haversine_km_equator by (rewrite Habs; lra).
  rewrite Habs. pose proof PI_3_4. lra.
Qed.

(** A search of 10 km around the point of the equator at longitude 0: the
    concert there is kept, the concert a degree to the east is not, the
    campus event without a position is kept. *)
Example along_the_equator_query :
  get_events_for_query (rt := py_runtime) Scenario.along_the_equator
    0 0 10 Scenario.query_start Scenario.query_end
  = Ok [Scenario.quay_concert; Scenario.art_walk].
Proof.
  destruct along_the_equator_fetch as (Heb & Hcampus & Hmerge).
  rewrite (get_events_for_query_Ok _ _ _ _ _ _ _ _ _ Heb Hcampus Hmerge).
  f_equal. rewrite filter_cons_True.
  - rewrite filter_cons_False.
    + by rewrite filter_cons_True.
    + unfold within_radius. simpl. pose proof island_concert_far. lra.
  - unfold within_radius. simpl. rewrite haversine_km_same. lra.
Qed.



Lemma aggregator_witness :
  [Scenario.jazz_located; Scenario.art_walk]
  ⊆+ [Scenario.jazz_located] ++ [Scenario.jazz_on_campus; Scenario.art_walk].
Proof.
  destruct end_to_end_fetch as (Heb & Hcampus & _).
  exact (proj1 (aggregator_only_reorders_and_filters (rt := py_runtime)
                  Scenario.end_to_end (400 / 10) (- (730 / 10)) 5
                  Scenario.query_start Scenario.query_end
                  _ _ _ Heb Hcampus end_to_end_query)).
Defined.

(** * Further properties of the code *)

(** ** Geo utility: domain and range, a degree of arc *)



(** Along a meridian, between one and 180 degrees of latitude apart, the
    distance is more than 100 km and less than 142 km per degree. *)
Lemma haversine_km_meridian_bounds (lat1 lat2 lon : R) :
  (1 <= Rabs (lat2 - lat1) <= 180)%R →
  (100 * Rabs (lat2 - lat1) < haversine_km lat1 lon lat2 lon
   < 142 * Rabs (lat2 - lat1))%R.
Proof.
  intros [Hlow Hup]. rewrite haversine_km_meridian by done.
  pose proof PI_3_4. nra.
Qed.

Lemma haversine_km_meridian_bounds_witness :
  (100 * Rabs (41 - 40) < haversine_km 40 (-73) 41 (-73)
   < 142 * Rabs (41 - 40))%R.
Proof.
  apply haversine_km_meridian_bounds.
  replace (41 - 40)%R with 1%R by lra.
  rewrite Rabs_right; lra.
Defined.

(** Along the equator, between one and 180 degrees of longitude apart, the
    distance is more than 100 km and less than 142 km per degree. *)
Lemma haversine_km_equator_bounds (lon1 lon2 : R) :
  (1 <= Rabs (lon2 - lon1) <= 180)%R →
  (100 * Rabs (lon2 - lon1) < haversine_km 0 lon1 0 lon2
   < 142 * Rabs (lon2 - lon1))%R.
Proof.
  intros [Hlow Hup]. rewrite haversine_km_equator by done.
  pose proof PI_3_4. nra.
Qed.

Lemma haversine_km_equator_bounds_witness :
  (100 * Rabs (1 - 0) < haversine_km 0 0 0 1 < 142 * Rabs (1 - 0))%R.
Proof.
  apply haversine_km_equator_bounds.
  replace (1 - 0)%R with 1%R by lra.
  rewrite Rabs_right; lra.
Defined.

(** ** The radius filter: growing, negative and very large radii *)

Lemma filter_sublist_impl {A : Type} (P Q : A → Prop)
    `{!∀ x, Decision (P x), !∀ x, Decision (Q x)} (l : list A) :
  (∀ x, P x → Q x) → filter P l `sublist_of` filter Q l.
Proof.
  intros Himpl. induction l as [|x l IH]; [done|].
  rewrite !filter_cons.
  destruct (decide (P x)) as [HP|HP], (decide (Q x)) as [HQ|HQ].
  - by apply sublist_skip.
  - destruct HQ. by apply Himpl.
  - by apply sublist_cons.
  - done.
Qed.

(** A larger radius never loses an event: the events kept within [r1] are
    kept, in the same order, within any [r2] above it. *)
Lemma radius_loop_monotone (q_lat q_lng r1 r2 : R) (events : list Event) :
  (r1 <= r2)%R →
  radius_loop q_lat q_lng r1 events []
  `sublist_of` radius_loop q_lat q_lng r2 events [].
Proof.
  intros Hr. rewrite !radius_loop_filter. simpl.
  apply filter_sublist_impl. intros e. unfold within_radius.
  destruct (lat e), (lng e); try done. lra.
Qed.

Lemma radius_loop_monotone_witness :
  radius_loop 40 (-73) 5 [Scenario.jazz_located; Scenario.art_walk] []
  `sublist_of`
  radius_loop 40 (-73) 50 [Scenario.jazz_located; Scenario.art_walk] [].
Proof. apply radius_loop_monotone. lra. Defined.

(** With a negative radius the query returns exactly the events that lack
    a coordinate: no distance is negative. With a radius of [6371 * 4] km
    or more it returns every event of the merged list, when the origin and
    the events are points of the Earth: no distance exceeds half the
    circumference of the Earth, [6371 * PI] km. *)
Lemma get_events_for_query_extreme_radius `{rt : Runtime} (w : world)
    (q_lat q_lng radius_km : R) (start_date end_date : datetime)
    (eb campus events out : list Event) :
  fetch_eventbrite_events w q_lat q_lng radius_km start_date end_date = Ok eb →
  fetch_campus_events w start_date end_date = Ok campus →
  merge_and_dedupe [eb; campus] = Ok events →
  get_events_for_query w q_lat q_lng radius_km start_date end_date = Ok out →
  ((radius_km < 0)%R → out = filter lacks_coordinate events)
  ∧ ((6371 * 4 <= radius_km)%R →
     valid_coordinates q_lat q_lng →
     (∀ e e_lat e_lng, e ∈ events → lat e = Some e_lat → lng e = Some e_lng →
        valid_coordinates e_lat e_lng) →
     out = events).
Proof.
  intros Heb Hcampus Hmerge Hout.
  rewrite (get_events_for_query_Ok _ _ _ _ _ _ _ _ _ Heb Hcampus Hmerge)
    in Hout.
  injection Hout as <-. split.
  - intros Hr. apply filter_ext_in. intros e _.
    unfold within_radius, lacks_coordinate.
    destruct (lat e) as [a|], (lng e) as [b|]; try (split; auto; fail).
    pose proof (haversine_km_nonneg q_lat q_lng a b).
    split; [lra | intros [?|?]; discriminate].
  - intros Hr _ _. clear Hmerge.
    induction events as [|e events IH]; [done|].
    rewrite filter_cons_True; [by rewrite IH|].
    unfold within_radius. destruct (lat e) as [a|], (lng e) as [b|]; try done.
    pose proof (haversine_km_le q_lat q_lng a b). lra.
Qed.

Lemma get_events_for_query_extreme_radius_witness :
  filter (within_radius (400 / 10) (- (730 / 10)) (-1))
    [Scenario.jazz_located; Scenario.art_walk]
  = filter lacks_coordinate [Scenario.jazz_located; Scenario.art_walk].
Proof.
  apply (get_events_for_query_extreme_radius (rt := py_runtime)
           Scenario.end_to_end (400 / 10) (- (730 / 10)) (-1)
           Scenario.query_start Scenario.query_end
           [Scenario.jazz_located]
           [Scenario.jazz_on_campus; Scenario.art_walk]
           [Scenario.jazz_located; Scenario.art_walk]).
  - vm_compute. reflexivity.
  - vm_compute. reflexivity.
  - vm_compute. reflexivity.
  - apply (get_events_for_query_Ok _ _ _ _ _ _
             [Scenario.jazz_located]
             [Scenario.jazz_on_campus; Scenario.art_walk]);
      vm_compute; reflexivity.
  - lra.
Defined.

(** ** The merge step: composition *)

Lemma StronglySorted_sublist {A : Type} (R : relation A) (l1 l2 : list A) :
  l1 `sublist_of` l2 → StronglySorted R l2 → StronglySorted R l1.
Proof.
  induction 1 as [|x l1 l2 Hsub IH|x l1 l2 Hsub IH]; intros Hs; [done| |].
  - apply StronglySorted_inv in Hs as [Hs Hx].
    constructor; [by apply IH|].
    eapply Forall_forall. intros y Hy.
    apply (proj1 (Forall_forall _ _) Hx). by eapply elem_of_sublist.
  - apply StronglySorted_inv in Hs as [Hs _]. by apply IH.
Qed.

Lemma sort_by_start_time_sorted_id (l : list Event) :
  StronglySorted instant_le l → timezone_consistent l →
  sort_by_start_time l = Ok l.
Proof.
  induction 1 as [|e rest Hrest IH He]; [done|].
  intros [Haw Hc]%timezone_consistent_cons. simpl.
  rewrite IH by done. simpl.
  destruct rest as [|x rest']; [done|]. simpl.
  apply Forall_cons in Haw as [Hx _]. apply Forall_cons in He as [Hle _].
  unfold dt_lt, dt_cmp. rewrite bool_decide_eq_true_2 by done. simpl.
  unfold instant_le in Hle.
  destruct (Z.ltb_spec (instant (start_time x)) (instant (start_time e)));
    [lia | done].
Qed.

Section MergeMore.
Context `{rt : Runtime}.

Lemma first_of_each_signature_id (l : list Event) :
  NoDup (signature <$> l) → first_of_each_signature l = l.
Proof.
  induction l as [|e seen IH] using rev_ind; [done|].
  rewrite fmap_app. intros (Hseen & Hfresh & _)%NoDup_app.
  rewrite first_of_each_signature_snoc, IH by done.
  rewrite decide_False; [done|].
  intros Hin. apply (Hfresh _ Hin). by left.
Qed.

(** Merging the output of a merge again returns it unchanged. *)
Lemma merge_and_dedupe_idempotent (events_lists : list (list Event)) out :
  merge_and_dedupe events_lists = Ok out → merge_and_dedupe [out] = Ok out.
Proof.
  unfold merge_and_dedupe. intros Hs.
  destruct (sort_by_start_time_Ok_inv _ _ Hs) as (Hperm & Hcons & Hsorted).
  rewrite dedupe_first_of_each_signature in *. simpl. rewrite app_nil_r.
  rewrite first_of_each_signature_id.
  - apply sort_by_start_time_sorted_id; [done|].
    by apply (timezone_consistent_perm _ _ (symmetry Hperm)).
  - rewrite Hperm. apply first_of_each_signature_NoDup.
Qed.

(** Only the concatenation of the lists matters: where one adapter's list
    ends and the next begins, and empty lists, make no difference. *)
Lemma merge_and_dedupe_concat (events_lists : list (list Event)) :
  merge_and_dedupe events_lists = merge_and_dedupe [concat events_lists].
Proof.
  unfold merge_and_dedupe. rewrite !dedupe_first_of_each_signature.
  simpl. by rewrite app_nil_r.
Qed.

Lemma merge_and_dedupe_signatures (events_lists : list (list Event)) out :
  merge_and_dedupe events_lists = Ok out →
  NoDup (signature <$> out)
  ∧ ∀ s, s ∈ signature <$> out ↔ s ∈ signature <$> concat events_lists.
Proof.
  intros (Hperm & _)%merge_and_dedupe_Ok_inv.
  rewrite dedupe_first_of_each_signature in Hperm. split.
  - rewrite Hperm. apply first_of_each_signature_NoDup.
  - intros s. rewrite Hperm. split.
    + intros (e & -> & He)%list_elem_of_fmap.
      apply list_elem_of_fmap. exists e. split; [done|].
      eapply elem_of_sublist; [exact He|].
      apply first_of_each_signature_sublist.
    + intros (e & -> & He)%list_elem_of_fmap.
      destruct (first_of_each_signature_covers _ _ He) as (e' & He' & Hsig).
      apply list_elem_of_fmap. by exists e'.
Qed.

(** The order of the adapters decides which copy of an event is kept, not
    which signatures come out: two merges of the same events in different
    orders return the same signatures. *)
Lemma merge_and_dedupe_signatures_order
    (lists1 lists2 : list (list Event)) out1 out2 :
  concat lists1 ≡ₚ concat lists2 →
  merge_and_dedupe lists1 = Ok out1 → merge_and_dedupe lists2 = Ok out2 →
  signature <$> out1 ≡ₚ signature <$> out2.
Proof.
  intros Hperm [Hnd1 Hs1]%merge_and_dedupe_signatures
    [Hnd2 Hs2]%merge_and_dedupe_signatures.
  apply NoDup_Permutation; [done..|].
  intros s. rewrite Hs1, Hs2. by rewrite Hperm.
Qed.

(** When no two events share a signature, the merge drops nothing. *)
Lemma merge_and_dedupe_distinct (events_lists : list (list Event)) :
  NoDup (signature <$> concat events_lists) →
  dedupe events_lists = concat events_lists
  ∧ ∀ out, merge_and_dedupe events_lists = Ok out →
      out ≡ₚ concat events_lists.
Proof.
  intros Hnd.
  assert (dedupe events_lists = concat events_lists) as Hd.
  { rewrite dedupe_first_of_each_signature.
    by apply first_of_each_signature_id. }
  split; [done|].
  intros out (Hperm & _)%merge_and_dedupe_Ok_inv. by rewrite <- Hd.
Qed.


(** What the query returns is in non-decreasing order of start time and
    holds at most one event of each signature: the radius filter keeps both
    properties of the merge step. *)
Lemma get_events_for_query_sorted_distinct (w : world)
    (q_lat q_lng radius_km : R) (start_date end_date : datetime)
    (out : list Event) :
  get_events_for_query w q_lat q_lng radius_km start_date end_date = Ok out →
  StronglySorted start_le out ∧ NoDup (signature <$> out).
Proof.
  intros (eb & campus & events & _ & _ & Hmerge & ->)%get_events_for_query_Ok_inv.
  pose proof (sublist_filter (within_radius q_lat q_lng radius_km) events)
    as Hsub.
  split.
  - eapply StronglySorted_sublist; [exact Hsub|].
    by apply merge_and_dedupe_Ok_inv in Hmerge as (_ & _ & ?).
  - eapply sublist_NoDup; [|exact (fmap_sublist signature _ _ Hsub)].
    by apply merge_and_dedupe_signatures in Hmerge as [? _].
Qed.

End MergeMore.

(** ** The Eventbrite adapter: payloads, items, fields *)

Section EventbriteMore.
Context `{rt : Runtime}.

Lemma eventbrite_loop_nil_app (items1 items2 : list json) :
  eventbrite_loop (items1 ++ items2) []
  = eventbrite_loop items1 [] ++ eventbrite_loop items2 [].
Proof.
  induction items1 as [|item items1 IH]; simpl; [done|].
  destruct (eventbrite_item item) as [e|]; [|done].
  rewrite eventbrite_loop_app, (eventbrite_loop_app items1 [e]), IH.
  by rewrite app_assoc.
Qed.

(** An item that cannot be parsed is skipped and nothing else changes: the
    adapter returns, in the order of the payload, what the items before it
    and the items after it give. *)
Lemma fetch_eventbrite_events_skips_malformed_item (w : world)
    (q_lat q_lng radius_km : R) (start_date end_date : datetime)
    (token : string) (status : Z) (m : gmap string json)
    (items1 items2 : list json) (item : json) (exc : exn) :
  getenv w "EVENTBRITE_TOKEN" = Some token →
  eventbrite_search w
    {| location_latitude := q_lat; location_longitude := q_lng;
       location_within := radius_km; range_start := start_date;
       range_end := end_date; bearer := token |}
  = Reply status (Some (JObj m)) →
  ¬ (400 ≤ status < 600)%Z →
  m !! "events" = Some (JArr (items1 ++ item :: items2)) →
  eventbrite_item item = Raise exc →
  fetch_eventbrite_events w q_lat q_lng radius_km start_date end_date
  = Ok (eventbrite_loop items1 [] ++ eventbrite_loop items2 []).
Proof.
  intros Henv Hreply Hstatus Hevents Hitem.
  rewrite (fetch_eventbrite_events_payload_Ok _ _ _ _ _ _ _ _ _ _
             Henv Hreply Hstatus Hevents).
  rewrite eventbrite_loop_nil_app. simpl. by rewrite Hitem.
Qed.

(** What the adapter does with each shape of a successful response: a body
    that is not JSON raises [JSONDecodeError]; a JSON value that is not an
    object raises [AttributeError]; an object without ["events"] gives no
    events; ["events"] holding [null], a boolean or a number raises
    [TypeError]; a string or an object there gives no events; a list is
    looped over. *)
Lemma fetch_eventbrite_events_by_payload (w : world)
    (q_lat q_lng radius_km : R) (start_date end_date : datetime)
    (token : string) (status : Z) (body : option json) :
  getenv w "EVENTBRITE_TOKEN" = Some token →
  eventbrite_search w
    {| location_latitude := q_lat; location_longitude := q_lng;
       location_within := radius_km; range_start := start_date;
       range_end := end_date; bearer := token |}
  = Reply status body →
  ¬ (400 ≤ status < 600)%Z →
  fetch_eventbrite_events w q_lat q_lng radius_km start_date end_date
  = match body with
    | None => Raise JSONDecodeError
    | Some (JObj m) =>
        match m !! "events" with
        | None => Ok []
        | Some (JArr items) => Ok (eventbrite_loop items [])
        | Some (JStr _) | Some (JObj _) => Ok []
        | Some (JNull | JBool _ | JNum _) => Raise TypeError
        end
    | Some _ => Raise AttributeError
    end.
Proof.
  intros Henv Hreply Hstatus. unfold fetch_eventbrite_events.
  rewrite Henv, Hreply. simpl.
  destruct (Z.leb_spec 400 status), (Z.ltb_spec status 600); simpl; try lia;
    (destruct body as [[| | | | |m]|]; simpl; try done;
     destruct (m !! "events") as [[| | |s|items|m']|]; simpl; try done).
  all: try (by rewrite eventbrite_loop_strings).
  all: by rewrite (list_fmap_compose (λ c, String c EmptyString) JStr),
         eventbrite_loop_strings.
Qed.

(** What an item needs: it must be an object and have a ["start"]. *)
Lemma eventbrite_item_needs_start (item : json) :
  (∀ m, item ≠ JObj m) ∨ (∃ m, item = JObj m ∧ m !! "start" = None) →
  ∀ ev, eventbrite_item item ≠ Ok ev.
Proof.
  intros Hbad ev Hitem.
  apply eventbrite_item_Ok in Hitem as (_ & (start_obj & Hstart & _) & _).
  destruct item as [| | | | |m]; try done. simpl in Hstart.
  destruct Hbad as [Hno|(m' & [= <-] & Hnone)]; [by apply (Hno m)|].
  by rewrite Hnone in Hstart.
Qed.

(** The defaults: an item that has nothing but a start time becomes an
    event titled "Untitled Event" at "Unknown venue", with empty
    description, address and URL, no end time and no coordinates. *)
Lemma eventbrite_item_defaults (m : gmap string json) (start_obj : json)
    (start : datetime) :
  m !! "start" = Some start_obj →
  parse_utc start_obj = Ok start →
  m !! "name" = None → m !! "description" = None → m !! "end" = None →
  m !! "venue" = None → m !! "url" = None →
  eventbrite_item (JObj m)
  = Ok {| title := "Untitled Event";
          description := "";
          start_time := start;
          end_time := None;
          venue_name := "Unknown venue";
          address := "";
          lat := None;
          lng := None;
          url := "";
          source := "Eventbrite" |}.
Proof.
  intros Hstart Hparse Hname Hdesc Hend Hvenue Hurl.
  unfold eventbrite_item, item_venue. simpl.
  rewrite Hname, Hdesc, Hstart, Hend, Hvenue, Hurl. simpl.
  rewrite Hparse. simpl. done.
Qed.

End EventbriteMore.

Section EventbriteFields.
Context `{rt : Runtime}.

Lemma address_loop_obj (addr : gmap string json) (keys : list string)
    (address_parts : list json) :
  address_loop (JObj addr) keys address_parts
  = Ok (address_parts
        ++ omap (λ key, match addr !! key with
                        | Some v => if truthy v then Some v else None
                        | None => None
                        end) keys).
Proof.
  revert address_parts. induction keys as [|key keys IH]; intros acc; simpl.
  - by rewrite app_nil_r.
  - destruct (addr !! key) as [v|] eqn:Hkey; simpl.
    + destruct (truthy v); [|apply IH].
      rewrite IH. by rewrite <- app_assoc.
    + apply IH.
Qed.

Lemma address_loop_Ok (addr : json) (parts : list json) :
  address_loop addr address_keys [] = Ok parts →
  ∃ am, addr = JObj am ∧ parts = present_parts am.
Proof.
  destruct addr as [| | | | |am]; try done.
  rewrite address_loop_obj. intros [= <-]. by exists am.
Qed.

Lemma py_join_Ok (sep : string) (parts : list json) (joined : string) :
  py_join sep parts = Ok joined →
  ∃ strs, parts = JStr <$> strs ∧ joined = String.concat sep strs.
Proof.
  revert joined. induction parts as [|part rest IH]; intros joined; simpl.
  - intros [= <-]. by exists [].
  - destruct part as [| | |s| |]; try done.
    destruct rest as [|part' rest'].
    + intros [= <-]. by exists [s].
    + intros Hjoin. apply rbind_Ok in Hjoin as (t & Ht & [= <-]).
      destruct (IH _ Ht) as (strs & Hstrs & ->).
      exists (s :: strs). split; [by rewrite Hstrs|].
      simpl. destruct strs; [done|]. done.
Qed.

Lemma present_parts_truthy (addr : gmap string json) :
  Forall (λ v, truthy v = true) (present_parts addr).
Proof.
  unfold present_parts. apply Forall_forall. intros v Hv.
  apply list_elem_of_omap in Hv as (key & _ & Hv).
  destruct (addr !! key) as [v'|]; [|done].
  destruct (truthy v') eqn:Htruthy; [|done]. by injection Hv as <-.
Qed.

(** The steps of an item that became an event. *)
Lemma eventbrite_item_steps (item : json) (ev : Event) :
  eventbrite_item item = Ok ev →
  ∃ venue addr parts,
    item_venue item = Ok venue
    ∧ venue_address venue = Ok addr
    ∧ address_loop addr address_keys [] = Ok parts
    ∧ py_join ", " parts = Ok (address ev).
Proof.
  unfold eventbrite_item, venue_address. intros Hitem.
  do 10 (apply rbind_Ok in Hitem as (? & _ & Hitem)).
  apply rbind_Ok in Hitem as (venue & Hvenue & Hitem).
  do 2 (apply rbind_Ok in Hitem as (? & _ & Hitem)).
  apply rbind_Ok in Hitem as (addr_obj & Haddr & Hitem).
  cbv zeta in Hitem.
  apply rbind_Ok in Hitem as (parts & Hparts & Hitem).
  apply rbind_Ok in Hitem as (joined & Hjoin & Hitem).
  do 4 (apply rbind_Ok in Hitem as (? & _ & Hitem)).
  injection Hitem as <-. simpl.
  exists venue, (py_or addr_obj (JObj ∅)), parts.
  rewrite Haddr. done.
Qed.

(** The address of an event is the venue's address parts that are present
    and non-empty, in the order address_1, city, region, postal_code,
    country, joined by a comma and a space: no empty part and no stray
    separator. *)
Lemma eventbrite_address_joined (item : json) (ev : Event) :
  eventbrite_item item = Ok ev →
  ∃ venue addr parts,
    item_venue item = Ok venue
    ∧ venue_address venue = Ok (JObj addr)
    ∧ present_parts addr = JStr <$> parts
    ∧ Forall (λ part, part ≠ EmptyString) parts
    ∧ address ev = String.concat ", " parts.
Proof.
  intros (venue & addr & parts & Hvenue & Haddr & Hloop & Hjoin)
    %eventbrite_item_steps.
  apply address_loop_Ok in Hloop as (am & -> & ->).
  apply py_join_Ok in Hjoin as (strs & Hstrs & Hjoined).
  exists venue, am, strs. split; [done|]. split; [done|]. split; [done|].
  split; [|done].
  pose proof (present_parts_truthy am) as Htruthy.
  rewrite Hstrs in Htruthy. apply Forall_fmap in Htruthy.
  eapply Forall_impl; [exact Htruthy|].
  intros s Hs ->. done.
Qed.

Lemma coordinate_number (venue : gmap string json) (key : string) (x : R) :
  venue !! key = Some (JNum x) →
  coordinate (JObj venue) key
  = Ok (if Req_dec_T x 0 then None else Some x).
Proof.
  intros Hkey. unfold coordinate, py_get, py_index. rewrite Hkey. simpl.
  by destruct (Req_dec_T x 0).
Qed.

(** A coordinate given as a JSON number is kept as it is unless it is zero:
    a venue on the equator or on the prime meridian, given as the number
    0, loses that coordinate as if it were absent. *)
Lemma eventbrite_numeric_coordinates (item : json) (ev : Event)
    (venue : gmap string json) :
  eventbrite_item item = Ok ev →
  item_venue item = Ok (JObj venue) →
  (∀ x, venue !! "latitude" = Some (JNum x) →
        lat ev = if Req_dec_T x 0 then None else Some x)
  ∧ (∀ x, venue !! "longitude" = Some (JNum x) →
          lng ev = if Req_dec_T x 0 then None else Some x).
Proof.
  intros (_ & _ & venue' & Hvenue & Hlat & Hlng)%eventbrite_item_Ok Hvenue'.
  rewrite Hvenue in Hvenue'. injection Hvenue' as ->.
  split; intros x Hx.
  - rewrite (coordinate_number _ _ _ Hx) in Hlat. by injection Hlat.
  - rewrite (coordinate_number _ _ _ Hx) in Hlng. by injection Hlng.
Qed.

(** An end time that is present but cannot be parsed costs the whole item:
    the event is not kept with an empty end time. *)
Lemma eventbrite_unparsable_end_drops_item (m end_obj : gmap string json)
    (s : string) :
  m !! "end" = Some (JObj end_obj) →
  end_obj !! "utc" = Some (JStr s) →
  s ≠ EmptyString →
  fromisoformat (replace_Z s) = None →
  ∀ ev, eventbrite_item (JObj m) ≠ Ok ev.
Proof.
  intros Hend Hutc Hs Hparse ev Hitem. unfold eventbrite_item in Hitem.
  do 8 (apply rbind_Ok in Hitem as (? & _ & Hitem)).
  apply rbind_Ok in Hitem as (end_v & Hend_v & Hitem).
  apply rbind_Ok in Hitem as (end_ & Hend_ & _).
  simpl in Hend_v. rewrite Hend in Hend_v. injection Hend_v as <-.
  assert (truthy (JObj end_obj) = true) as Hobj.
  { simpl. apply negb_true_iff, Nat.eqb_neq.
    intros Hsize%map_size_empty_iff. by rewrite Hsize in Hutc. }
  assert (truthy (JStr s) = true) as Hstr.
  { simpl. apply negb_true_iff. by apply String.eqb_neq. }
  rewrite Hobj in Hend_. unfold py_index in Hend_. rewrite Hend in Hend_.
  simpl in Hend_. rewrite Hutc in Hend_. simpl in Hend_.
  change (negb (String.eqb s "")) with (truthy (JStr s)) in Hend_.
  rewrite Hstr in Hend_.
  unfold parse_utc, py_index in Hend_. rewrite Hutc in Hend_.
  simpl in Hend_. by rewrite Hparse in Hend_.
Qed.

End EventbriteFields.

(** ** The campus adapter: which blocks become events *)

Section CampusMore.
Context `{rt : Runtime}.

(** The events of the campus adapter are exactly the blocks of the page
    whose date parses to a start time inside the query range, both ends
    included; each carries the block's title, venue and first link, with
    "Untitled event", "On campus" and the page URL where the block has
    none. *)
Lemma fetch_campus_events_characterised (w : world)
    (start_date end_date : datetime) (page_url : string) (status : Z)
    (divs : list event_item) (campus : list Event) :
  getenv w "CAMPUS_EVENTS_URL" = Some page_url →
  web_page w page_url = Reply status divs →
  ¬ (400 ≤ status < 600)%Z →
  fetch_campus_events w start_date end_date = Ok campus →
  ∀ ev, ev ∈ campus ↔
    ∃ div start,
      div ∈ divs
      ∧ fromisoformat (text_or (event_date div) "") = Some start
      ∧ aware start = aware start_date ∧ aware start = aware end_date
      ∧ (instant start_date ≤ instant start ≤ instant end_date)%Z
      ∧ ev = {| title := text_or (event_title div) "Untitled event";
                description := "Campus event";
                start_time := start;
                end_time := None;
                venue_name := text_or (event_venue div) "On campus";
                address := text_or (event_venue div) "On campus";
                lat := None;
                lng := None;
                url := match first_link div with
                       | Some link_tag => default page_url (href link_tag)
                       | None => page_url
                       end;
                source := "Campus" |}.
Proof.
  intros Henv Hpage Hstatus Hfetch.
  rewrite (fetch_campus_events_page_Ok _ _ _ _ _ _ Henv Hpage Hstatus)
    in Hfetch.
  injection Hfetch as <-. intros ev. rewrite elem_of_campus_loop.
  split.
  - intros (div & Hdiv & Hitem). unfold campus_item, in_range in Hitem.
    destruct (fromisoformat _) as [start|] eqn:Hparse; simpl in Hitem;
      [|done].
    destruct (dt_le start_date start) as [[|]|] eqn:Hlo; simpl in Hitem;
      try done.
    destruct (dt_le start end_date) as [[|]|] eqn:Hhi; simpl in Hitem;
      try done.
    injection Hitem as <-.
    apply dt_cmp_Ok in Hlo as [Hlo1 Hlo2], Hhi as [Hhi1 Hhi2].
    symmetry in Hlo2, Hhi2. apply Z.leb_le in Hlo2, Hhi2.
    exists div, start. by repeat split.
  - intros (div & start & Hdiv & Hparse & Haw1 & Haw2 & [Hlo Hhi] & ->).
    exists div. split; [done|]. unfold campus_item, in_range.
    rewrite Hparse. simpl. unfold dt_le, dt_cmp.
    rewrite !bool_decide_eq_true_2 by done. simpl.
    apply Z.leb_le in Hlo, Hhi. rewrite Hlo. simpl. by rewrite Hhi.
Qed.

Lemma campus_loop_nil_app page_url start_date end_date
    (divs1 divs2 : list event_item) :
  campus_loop page_url start_date end_date (divs1 ++ divs2) []
  = campus_loop page_url start_date end_date divs1 []
    ++ campus_loop page_url start_date end_date divs2 [].
Proof.
  induction divs1 as [|div divs1 IH]; simpl; [done|].
  destruct (campus_item _ _ _ div) as [[e|]|]; try done.
  rewrite campus_loop_app, (campus_loop_app _ _ _ divs1 [e]), IH.
  by rewrite app_assoc.
Qed.

(** A block without a date element is skipped, and the blocks around it are
    read as if it were not there (for a runtime whose [fromisoformat]
    rejects the empty string, as CPython's does). *)
Lemma campus_block_without_date_skipped page_url start_date end_date
    (divs1 divs2 : list event_item) (div : event_item) :
  fromisoformat "" = None →
  event_date div = None →
  campus_loop page_url start_date end_date (divs1 ++ div :: divs2) []
  = campus_loop page_url start_date end_date (divs1 ++ divs2) [].
Proof.
  intros Hempty Hdate.
  rewrite !campus_loop_nil_app. f_equal. simpl.
  unfold campus_item. rewrite Hdate. simpl. by rewrite Hempty.
Qed.

End CampusMore.

(** ** Dates: the default range of the page *)

Section Dates.
Local Open Scope Z_scope.

Lemma next_day_ordinal (d : date) :
  valid_month_day d →
  valid_month_day (next_day d) ∧ toordinal (next_day d) = toordinal d + 1.
Proof.
  destruct d as [y m dd]. unfold valid_month_day, next_day, toordinal. simpl.
  intros [Hm Hd].
  destruct (Z.ltb_spec dd (days_in_month y m)) as [Hlt|Hge]; simpl.
  { unfold ymd2ord. lia. }
  assert (dd = days_in_month y m) as -> by lia.
  destruct (Z.ltb_spec m 12) as [Hm12|Hm12]; simpl.
  - apply month_cases in Hm.
    unfold ymd2ord, days_before_month, days_in_month.
    destruct (is_leap y);
      repeat (destruct Hm as [->|Hm]; [simpl; lia|]); lia.
  - assert (m = 12) as -> by lia.
    unfold ymd2ord. rewrite days_before_year_succ.
    unfold days_before_month, days_in_month. simpl.
    destruct (is_leap y); simpl; lia.
Qed.

Lemma iter_next_day_ordinal (n : nat) (d : date) :
  valid_month_day d →
  valid_month_day (Nat.iter n next_day d)
  ∧ toordinal (Nat.iter n next_day d) = toordinal d + Z.of_nat n.
Proof.
  intros Hd. induction n as [|n [IHv IHo]]; simpl; [split; [done | lia]|].
  destruct (next_day_ordinal _ IHv) as [Hv Ho]. split; [done|]. lia.
Qed.

Lemma toordinal_year_bound (d : date) :
  valid_month_day d →
  date_year d ≤ 9999 ↔ toordinal d ≤ ymd2ord 9999 12 31.
Proof.
  destruct d as [y m dd]. unfold valid_month_day, toordinal. simpl.
  intros [Hm Hd].
  assert (1 ≤ 12 ≤ 12) as H12 by lia.
  assert (1 ≤ 31 ≤ days_in_month 9999 12) as H31 by (vm_compute; split; discriminate).
  split.
  - intros Hy.
    destruct (lex_lt_trichotomy [y; m; dd] [9999; 12; 31]) as [Hlt|[Heq|Hgt]];
      [done| | |].
    + pose proof (ymd2ord_lt _ _ _ _ _ _ Hm Hd H12 H31 Hlt). lia.
    + by injection Heq as -> -> ->.
    + exfalso. simpl in Hgt.
      pose proof (days_in_month_le y m).
      destruct Hgt as [?|[? [?|[? [?|[_ []]]]]]]; lia.
  - intros Hord. destruct (Z.le_gt_cases y 9999) as [|Hy]; [done|].
    assert (lex_lt [9999; 12; 31] [y; m; dd]) as Hlt by (simpl; lia).
    pose proof (ymd2ord_lt _ _ _ _ _ _ H12 H31 Hm Hd Hlt). lia.
Qed.

(** [date_plus_days] is the date whose ordinal is [n] more: it crosses the
    ends of months and years and the leap days as the calendar does, and it
    fails exactly when the result would lie after 9999-12-31. *)
Lemma date_plus_days_ordinal (d : date) (n : nat) :
  valid_date d →
  (∀ later, date_plus_days d n = Some later →
     valid_date later ∧ toordinal later = toordinal d + Z.of_nat n)
  ∧ (date_plus_days d n = None
     ↔ ymd2ord 9999 12 31 < toordinal d + Z.of_nat n).
Proof.
  intros (Hy & Hm & Hd). unfold date_plus_days.
  destruct (iter_next_day_ordinal n d) as [Hv Ho]; [done|].
  pose proof (toordinal_year_bound _ Hv) as Hbound.
  destruct (Z.leb_spec (date_year (Nat.iter n next_day d)) 9999) as [Hle|Hgt].
  - split.
    + intros later [= <-]. split; [|done].
      destruct Hv as [Hvm Hvd]. split; [|done]. split; [|done].
      assert (toordinal d ≤ toordinal (Nat.iter n next_day d)) as Hmono by lia.
      destruct (Z.le_gt_cases 1 (date_year (Nat.iter n next_day d)))
        as [|Hsmall]; [done|].
      assert (lex_lt [date_year (Nat.iter n next_day d);
                      date_month (Nat.iter n next_day d);
                      date_day (Nat.iter n next_day d)]
                     [date_year d; date_month d; date_day d]) as Hlt
        by (simpl; lia).
      pose proof (ymd2ord_lt _ _ _ _ _ _ Hvm Hvd Hm Hd Hlt) as Hcontra.
      unfold toordinal in Hmono. lia.
    + split; [done|]. intros Hover. apply Hbound in Hle. lia.
  - split; [done|]. split; [|done]. intros _.
    destruct (Z.le_gt_cases (toordinal (Nat.iter n next_day d))
                (ymd2ord 9999 12 31)) as [Hle%Hbound|]; lia.
Qed.

End Dates.

Lemma date_plus_days_witness :
  date_plus_days (mk_date 2024 2 26) 7 = Some (mk_date 2024 3 4)
  ∧ toordinal (mk_date 2024 3 4) = (toordinal (mk_date 2024 2 26) + 7)%Z
  ∧ date_plus_days (mk_date 9999 12 28) 7 = None.
Proof.
  assert (valid_date (mk_date 2024 2 26)) as Hv
    by (unfold valid_date; simpl; vm_compute; intuition discriminate).
  assert (valid_date (mk_date 9999 12 28)) as Hv'
    by (unfold valid_date; simpl; vm_compute; intuition discriminate).
  split; [reflexivity|]. split.
  - apply (proj1 (date_plus_days_ordinal (mk_date 2024 2 26) 7 Hv)
             (mk_date 2024 3 4)).
    reflexivity.
  - apply (proj2 (date_plus_days_ordinal (mk_date 9999 12 28) 7 Hv')).
    vm_compute. reflexivity.
Defined.

(** ** The page: when it searches and what it shows *)

Section Page.
Context `{rt : Runtime} `{fm : Formatter}.

Lemma param_or_given (param : option string) (d1 d2 : string) :
  given param = true → param_or param d1 = param_or param d2.
Proof.
  destruct param as [s|]; simpl; [|done]. by destruct (String.eqb s "").
Qed.

Lemma param_or_not_given (param : option string) (dflt : string) :
  given param = false → param_or param dflt = dflt.
Proof.
  destruct param as [s|]; simpl; [|done]. by destruct (String.eqb s "").
Qed.

(** The [try] block changes [radius_km] only to the parsed radius
    parameter. *)
Lemma index_try_radius (w : world) lat_s lng_s radius_param start_str end_str
    radius_km events :
  given radius_param = false →
  (index_try w lat_s lng_s radius_param start_str end_str radius_km events).1
  = radius_km.
Proof.
  intros Hgiven. unfold index_try.
  destruct (or_raise _ (float_of_str lat_s)); [|done].
  destruct (or_raise _ (float_of_str lng_s)); [|done].
  destruct radius_param as [s|]; rewrite ?Hgiven;
    (destruct (or_raise _ (fromisoformat start_str)); [|done];
     destruct (or_raise _ (fromisoformat end_str)); [|done];
     by destruct (get_events_for_query _ _ _ _ _ _)).
Qed.

(** The form is filled again with the text of the request, whether the
    search ran, failed or did not run: the raw parameters, the default
    range from today to seven days later, and for the radius the default
    10.0, the only number the page ever formats. *)
Lemma index_form_fields (w : world) (today : date)
    (args : gmap string string) (p : page) :
  index w today args = Some p →
  ∃ end_day,
    date_plus_days today 7 = Some end_day
    ∧ page_lat p = param_or (args !! "lat") ""
    ∧ page_lng p = param_or (args !! "lng") ""
    ∧ page_radius p = param_or (args !! "radius") (float_str 10)
    ∧ page_start_date p = param_or (args !! "start_date") (date_str today)
    ∧ page_end_date p = param_or (args !! "end_date") (date_str end_day).
Proof.
  unfold index. intros Hindex.
  apply bind_Some in Hindex as (end_day & Hend & Hindex).
  exists end_day. split; [done|].
  destruct (match args !! "lat" with Some _ => _ | None => _ end)
    as [radius_km events] eqn:Htry.
  injection Hindex as <-. simpl. repeat split; try done.
  destruct (given (args !! "radius")) eqn:Hgiven.
  - by apply param_or_given.
  - rewrite !param_or_not_given by done. f_equal.
    destruct (args !! "lat") as [lat_s|]; [|by injection Htry as <- _].
    destruct (args !! "lng") as [lng_s|]; [|by injection Htry as <- _].
    destruct (_ && _); [|by injection Htry as <- _].
    pose proof (index_try_radius w lat_s lng_s (args !! "radius")
                  (param_or (args !! "start_date") (date_str today))
                  (param_or (args !! "end_date") (date_str end_day))
                  10%R [] Hgiven) as Hr.
    rewrite Htry in Hr. done.
Qed.

(** Without both a latitude and a longitude in the request no search runs:
    the page shows no events and does not depend on the environment or on
    any source. *)
Lemma index_needs_both_coordinates (w w' : world) (today : date)
    (args : gmap string string) :
  given (args !! "lat") && given (args !! "lng") = false →
  index w today args = index w' today args
  ∧ ∀ p, index w today args = Some p → page_events p = [].
Proof.
  intros Hgiven. unfold index.
  destruct (date_plus_days today 7) as [end_day|]; simpl; [|done].
  rewrite Hgiven.
  destruct (args !! "lat") as [lat_s|], (args !! "lng") as [lng_s|];
    (split; [done|]); by intros p [= <-].
Qed.

(** The page shows events only when everything went through: both
    coordinates, the radius if given and both dates parsed, and the query
    returned them. In every other case, a provider's exception included,
    it shows none. *)
Lemma index_events_from_successful_query (w : world) (today : date)
    (args : gmap string string) (p : page) :
  index w today args = Some p →
  page_events p = []
  ∨ ∃ lat_s lng_s q_lat q_lng radius_km start_dt end_dt end_day,
      args !! "lat" = Some lat_s ∧ float_of_str lat_s = Some q_lat
      ∧ args !! "lng" = Some lng_s ∧ float_of_str lng_s = Some q_lng
      ∧ ((given (args !! "radius") = false ∧ radius_km = 10%R)
         ∨ ∃ radius_s, args !! "radius" = Some radius_s
                       ∧ float_of_str radius_s = Some radius_km)
      ∧ date_plus_days today 7 = Some end_day
      ∧ fromisoformat (param_or (args !! "start_date") (date_str today))
        = Some start_dt
      ∧ fromisoformat (param_or (args !! "end_date") (date_str end_day))
        = Some end_dt
      ∧ get_events_for_query w q_lat q_lng radius_km start_dt end_dt
        = Ok (page_events p).
Proof.
  unfold index. intros Hindex.
  apply bind_Some in Hindex as (end_day & Hend & Hindex).
  destruct (args !! "lat") as [lat_s|]; [|injection Hindex as <-; by left].
  destruct (args !! "lng") as [lng_s|]; [|injection Hindex as <-; by left].
  destruct (_ && _); [|injection Hindex as <-; by left].
  unfold index_try in Hindex.
  destruct (float_of_str lat_s) as [q_lat|] eqn:Hlat; simpl in Hindex;
    [|injection Hindex as <-; by left].
  destruct (float_of_str lng_s) as [q_lng|] eqn:Hlng; simpl in Hindex;
    [|injection Hindex as <-; by left].
  destruct (match args !! "radius" with Some _ => _ | None => _ end)
    as [radius_km|] eqn:Hradius; [|injection Hindex as <-; by left].
  destruct (fromisoformat (param_or (args !! "start_date") _))
    as [start_dt|] eqn:Hstart; simpl in Hindex;
    [|injection Hindex as <-; by left].
  destruct (fromisoformat (param_or (args !! "end_date") _))
    as [end_dt|] eqn:Hstop; simpl in Hindex;
    [|injection Hindex as <-; by left].
  destruct (get_events_for_query w q_lat q_lng radius_km start_dt end_dt)
    as [events|] eqn:Hq; [|injection Hindex as <-; by left].
  injection Hindex as <-. simpl. right.
  exists lat_s, lng_s, q_lat, q_lng, radius_km, start_dt, end_dt, end_day.
  repeat split; try done.
  destruct (args !! "radius") as [radius_s|] eqn:Hr.
  - destruct (given (Some radius_s)) eqn:Hgiven.
    + right. exists radius_s. split; [done|]. by apply or_raise_Ok in Hradius.
    + left. by injection Hradius as <-.
  - left. by injection Hradius as <-.
Qed.

(** With both coordinates given and everything parsed, the page shows what
    the query returns, or nothing if the query raises: the radius is 10
    unless given, the range runs from today to seven days later unless
    given. *)
Lemma index_runs_query (w : world) (today end_day : date)
    (args : gmap string string) (lat_s lng_s : string)
    (q_lat q_lng radius_km : R) (start_dt end_dt : datetime) :
  args !! "lat" = Some lat_s → lat_s ≠ EmptyString →
  args !! "lng" = Some lng_s → lng_s ≠ EmptyString →
  float_of_str lat_s = Some q_lat → float_of_str lng_s = Some q_lng →
  (given (args !! "radius") = false ∧ radius_km = 10%R)
  ∨ (∃ radius_s, args !! "radius" = Some radius_s ∧ radius_s ≠ EmptyString
                 ∧ float_of_str radius_s = Some radius_km) →
  date_plus_days today 7 = Some end_day →
  fromisoformat (param_or (args !! "start_date") (date_str today))
  = Some start_dt →
  fromisoformat (param_or (args !! "end_date") (date_str end_day))
  = Some end_dt →
  ∃ p, index w today args = Some p
       ∧ page_events p
         = index_events w q_lat q_lng radius_km start_dt end_dt.
Proof.
  intros Hlat Hlat_ne Hlng Hlng_ne Hflat Hflng Hradius Hend Hstart Hstop.
  unfold index. rewrite Hend, Hlat, Hlng. simpl.
  apply String.eqb_neq in Hlat_ne, Hlng_ne. rewrite Hlat_ne, Hlng_ne. simpl.
  unfold index_try. rewrite Hflat, Hflng. simpl.
  assert (match args !! "radius" with
          | Some s => if given (args !! "radius")
                      then or_raise ValueError (float_of_str s)
                      else Ok 10%R
          | None => Ok 10%R
          end = Ok radius_km) as ->.
  { destruct Hradius as [[Hgiven ->]|(radius_s & Hr & Hne & Hfloat)].
    - rewrite Hgiven. by destruct (args !! "radius").
    - rewrite Hr. simpl. apply String.eqb_neq in Hne. rewrite Hne. simpl.
      by rewrite Hfloat. }
  rewrite Hstart, Hstop. simpl. unfold index_events.
  destruct (get_events_for_query w q_lat q_lng radius_km start_dt end_dt);
    by eexists.
Qed.

End Page.

(** ** Nothing configured *)

(** With neither source configured, the variables unset or empty, the query
    returns the empty list without asking anything of the network. *)
Lemma get_events_for_query_unconfigured `{rt : Runtime} (w : world)
    (q_lat q_lng radius_km : R) (start_date end_date : datetime) :
  environ w !! "EVENTBRITE_TOKEN" = None
  ∨ environ w !! "EVENTBRITE_TOKEN" = Some EmptyString →
  environ w !! "CAMPUS_EVENTS_URL" = None
  ∨ environ w !! "CAMPUS_EVENTS_URL" = Some EmptyString →
  get_events_for_query w q_lat q_lng radius_km start_date end_date = Ok [].
Proof.
  intros Htoken Hurl.
  assert (getenv w "EVENTBRITE_TOKEN" = None) as Ht
    by (destruct Htoken; [by apply getenv_unset | by apply getenv_empty]).
  assert (getenv w "CAMPUS_EVENTS_URL" = None) as Hu
    by (destruct Hurl; [by apply getenv_unset | by apply getenv_empty]).
  unfold get_events_for_query, fetch_eventbrite_events, fetch_campus_events.
  by rewrite Ht, Hu.
Qed.

Lemma get_events_for_query_unconfigured_witness :
  get_events_for_query (rt := py_runtime)
    {| environ := {[ "EVENTBRITE_TOKEN" := "" ]};
       eventbrite_search := λ _, Unreachable;
       web_page := λ _, Unreachable |}
    40 (-73) 5 Scenario.query_start Scenario.query_end = Ok [].
Proof.
  apply (get_events_for_query_unconfigured (rt := py_runtime)).
  - right. reflexivity.
  - left. reflexivity.
Defined.

(** ** The further properties on the scenarios *)

Lemma morning_merge :
  merge_and_dedupe (rt := py_runtime)
    [[Scenario.talk; Scenario.lunch]; [Scenario.talk_relisted; Scenario.panel]]
  = Ok [Scenario.lunch; Scenario.talk; Scenario.panel].
Proof. vm_compute. reflexivity. Qed.

Lemma merge_and_dedupe_idempotent_witness :
  merge_and_dedupe (rt := py_runtime)
    [[Scenario.lunch; Scenario.talk; Scenario.panel]]
  = Ok [Scenario.lunch; Scenario.talk; Scenario.panel].
Proof.
  exact (merge_and_dedupe_idempotent (rt := py_runtime) _ _ morning_merge).
Defined.

Lemma merge_and_dedupe_signatures_order_witness :
  signature (rt := py_runtime)
    <$> [Scenario.lunch; Scenario.talk; Scenario.panel]
  ≡ₚ signature (rt := py_runtime)
       <$> [Scenario.lunch; Scenario.panel; Scenario.talk_relisted].
Proof.
  apply (merge_and_dedupe_signatures_order (rt := py_runtime)
           [[Scenario.talk; Scenario.lunch];
            [Scenario.talk_relisted; Scenario.panel]]
           [[Scenario.talk_relisted; Scenario.panel];
            [Scenario.talk; Scenario.lunch]]).
  - simpl. apply (Permutation_app_comm [_; _] [_; _]).
  - exact morning_merge.
  - vm_compute. reflexivity.
Defined.

Lemma merge_and_dedupe_distinct_witness :
  dedupe (rt := py_runtime) [[Scenario.talk]; [Scenario.lunch; Scenario.panel]]
  = [Scenario.talk; Scenario.lunch; Scenario.panel].
Proof.
  apply (merge_and_dedupe_distinct (rt := py_runtime)
           [[Scenario.talk]; [Scenario.lunch; Scenario.panel]]).
  apply (bool_decide_unpack _). vm_compute. exact I.
Defined.


Lemma get_events_for_query_sorted_distinct_witness :
  StronglySorted start_le [Scenario.jazz_located; Scenario.art_walk]
  ∧ NoDup (signature (rt := py_runtime)
           <$> [Scenario.jazz_located; Scenario.art_walk]).
Proof.
  exact (get_events_for_query_sorted_distinct (rt := py_runtime)
           _ _ _ _ _ _ _ end_to_end_query).
Defined.

Lemma broken_item_raises :
  eventbrite_item (rt := py_runtime) Scenario.broken_item
  = Raise AttributeError.
Proof. vm_compute. reflexivity. Qed.

Lemma fetch_eventbrite_events_skips_malformed_item_witness :
  fetch_eventbrite_events (rt := py_runtime) Scenario.one_bad_item
    40 (-73) 5 Scenario.query_start Scenario.query_end
  = Ok (eventbrite_loop (rt := py_runtime) [Scenario.jazz_item] []
        ++ eventbrite_loop (rt := py_runtime) [Scenario.bare_item] []).
Proof.
  apply (fetch_eventbrite_events_skips_malformed_item (rt := py_runtime)
           Scenario.one_bad_item 40 (-73) 5
           Scenario.query_start Scenario.query_end
           "secret" 200 Scenario.mixed_items
           [Scenario.jazz_item] [Scenario.bare_item] Scenario.broken_item
           AttributeError).
  - reflexivity.
  - reflexivity.
  - lia.
  - reflexivity.
  - exact broken_item_raises.
Defined.

Example one_bad_item_probe :
  fetch_eventbrite_events (rt := py_runtime) Scenario.one_bad_item
    40 (-73) 5 Scenario.query_start Scenario.query_end
  = Ok [Scenario.jazz; Scenario.bare].
Proof. vm_compute. reflexivity. Qed.

Lemma fetch_eventbrite_events_by_payload_witness :
  fetch_eventbrite_events (rt := py_runtime)
    {| environ := {[ "EVENTBRITE_TOKEN" := "secret" ]};
       eventbrite_search := λ _, Reply 200 (Some (JArr []));
       web_page := λ _, Unreachable |}
    40 (-73) 5 Scenario.query_start Scenario.query_end
  = Raise AttributeError.
Proof.
  apply (fetch_eventbrite_events_by_payload (rt := py_runtime)
           {| environ := {[ "EVENTBRITE_TOKEN" := "secret" ]};
              eventbrite_search := λ _, Reply 200 (Some (JArr []));
              web_page := λ _, Unreachable |}
           40 (-73) 5 Scenario.query_start Scenario.query_end
           "secret" 200 (Some (JArr []))).
  - reflexivity.
  - reflexivity.
  - lia.
Defined.

Lemma eventbrite_item_needs_start_witness :
  eventbrite_item (rt := py_runtime)
    (JObj {[ "name" := JObj {[ "text" := JStr "Jazz Night" ]} ]})
  = Raise KeyError
  ∧ eventbrite_item (rt := py_runtime)
      (JObj {[ "name" := JObj {[ "text" := JStr "Jazz Night" ]} ]})
    ≠ Ok Scenario.bare.
Proof.
  split; [vm_compute; reflexivity|].
  apply (eventbrite_item_needs_start (rt := py_runtime)).
  right. eexists. split; reflexivity.
Defined.

Lemma eventbrite_item_defaults_witness :
  eventbrite_item (rt := py_runtime) Scenario.bare_item = Ok Scenario.bare.
Proof.
  apply (eventbrite_item_defaults (rt := py_runtime) _
           (JObj {[ "utc" := JStr "2024-06-03T09:00:00" ]})
           (mk_datetime 2024 6 3 9 0 0 0 None)); reflexivity.
Defined.

Lemma addressed_item_parsed :
  eventbrite_item (rt := py_runtime) Scenario.addressed_item
  = Ok Scenario.addressed.
Proof. vm_compute. reflexivity. Qed.

Lemma eventbrite_address_joined_witness :
  ∃ venue addr parts,
    item_venue Scenario.addressed_item = Ok venue
    ∧ venue_address venue = Ok (JObj addr)
    ∧ present_parts addr = JStr <$> parts
    ∧ Forall (λ part, part ≠ EmptyString) parts
    ∧ address Scenario.addressed = String.concat ", " parts.
Proof.
  exact (eventbrite_address_joined (rt := py_runtime) _ _
           addressed_item_parsed).
Defined.

Example address_probe :
  present_parts Scenario.street_address
  = JStr <$> ["1 Main St"; "Springfield"; "US"].
Proof. vm_compute. reflexivity. Qed.

Lemma equator_item_parsed :
  eventbrite_item (rt := py_runtime) Scenario.equator_item
  = Ok Scenario.on_equator.
Proof.
  vm_compute.
  destruct (Req_dec_T _ _) as [_|Hne]; [|by destruct Hne].
  destruct (Req_dec_T _ _) as [Heq|_]; [exfalso; lra|].
  reflexivity.
Qed.

Lemma eventbrite_numeric_coordinates_witness :
  lat Scenario.on_equator = (if Req_dec_T 0 0 then None else Some 0%R)
  ∧ lng Scenario.on_equator = (if Req_dec_T 5 0 then None else Some 5%R).
Proof.
  destruct (eventbrite_numeric_coordinates (rt := py_runtime)
              Scenario.equator_item Scenario.on_equator
              Scenario.equator_venue equator_item_parsed)
    as [Hlat Hlng]; [reflexivity|].
  split; [apply Hlat | apply Hlng]; reflexivity.
Defined.

Lemma eventbrite_unparsable_end_witness :
  eventbrite_item (rt := py_runtime) (JObj Scenario.open_ended)
  = Raise ValueError
  ∧ eventbrite_item (rt := py_runtime) (JObj Scenario.open_ended)
    ≠ Ok Scenario.bare.
Proof.
  split; [vm_compute; reflexivity|].
  apply (eventbrite_unparsable_end_drops_item (rt := py_runtime)
           Scenario.open_ended {[ "utc" := JStr "late" ]} "late");
    [reflexivity | reflexivity | discriminate | reflexivity].
Defined.

Lemma campus_only_fetch :
  fetch_campus_events (rt := py_runtime) Scenario.campus_only
    Scenario.query_start Scenario.query_end
  = Ok [Scenario.art_walk; Scenario.art_walk_again].
Proof. vm_compute. reflexivity. Qed.

Lemma fetch_campus_events_characterised_witness :
  ∃ div start,
    div ∈ [Scenario.art_walk_div; Scenario.art_walk_again_div]
    ∧ PyRuntime.iso_datetime (text_or (event_date div) "") = Some start
    ∧ (instant Scenario.query_start ≤ instant start
       ≤ instant Scenario.query_end)%Z
    ∧ start_time Scenario.art_walk = start.
Proof.
  destruct (proj1 (fetch_campus_events_characterised (rt := py_runtime)
                     Scenario.campus_only
                     Scenario.query_start Scenario.query_end
                     Scenario.campus_url 200
                     [Scenario.art_walk_div; Scenario.art_walk_again_div]
                     [Scenario.art_walk; Scenario.art_walk_again]
                     eq_refl eq_refl ltac:(lia) campus_only_fetch
                     Scenario.art_walk)
              ltac:(by left))
    as (div & start & Hdiv & Hparse & _ & _ & Hrange & Hev).
  exists div, start. split; [done|]. split; [done|]. split; [done|].
  by rewrite Hev.
Defined.

Lemma campus_block_without_date_witness :
  campus_loop (rt := py_runtime) Scenario.campus_url
    Scenario.query_start Scenario.query_end
    ([Scenario.art_walk_div] ++ Scenario.undated_div
     :: [Scenario.art_walk_again_div]) []
  = campus_loop (rt := py_runtime) Scenario.campus_url
      Scenario.query_start Scenario.query_end
      ([Scenario.art_walk_div] ++ [Scenario.art_walk_again_div]) [].
Proof.
  apply (campus_block_without_date_skipped (rt := py_runtime));
    reflexivity.
Defined.

Lemma plain_search_page :
  index (rt := py_runtime) (fm := py_formatter) Scenario.campus_only
    Scenario.today Scenario.plain_search
  = Some {| page_events := [Scenario.art_walk];
            page_lat := "40.0";
            page_lng := "-73.0";
            page_radius := "10.0";
            page_start_date := "2024-06-01";
            page_end_date := "2024-06-08" |}.
Proof. vm_compute. reflexivity. Qed.

Lemma index_form_fields_witness :
  ∃ end_day,
    date_plus_days Scenario.today 7 = Some end_day
    ∧ "40.0" = param_or (Scenario.plain_search !! "lat") ""
    ∧ "-73.0" = param_or (Scenario.plain_search !! "lng") ""
    ∧ "10.0" = param_or (Scenario.plain_search !! "radius")
                 (float_str (Formatter := py_formatter) 10)
    ∧ "2024-06-01" = param_or (Scenario.plain_search !! "start_date")
                       (date_str Scenario.today)
    ∧ "2024-06-08" = param_or (Scenario.plain_search !! "end_date")
                       (date_str end_day).
Proof.
  exact (index_form_fields (rt := py_runtime) (fm := py_formatter)
           _ _ _ _ plain_search_page).
Defined.

Lemma index_needs_both_coordinates_witness :
  index (rt := py_runtime) (fm := py_formatter) Scenario.campus_only
    Scenario.today Scenario.no_coordinates
  = index (rt := py_runtime) (fm := py_formatter) Scenario.unconfigured
      Scenario.today Scenario.no_coordinates.
Proof.
  apply (index_needs_both_coordinates (rt := py_runtime) (fm := py_formatter)
           Scenario.campus_only Scenario.unconfigured).
  reflexivity.
Defined.

Example bad_latitude_probe :
  index (rt := py_runtime) (fm := py_formatter) Scenario.campus_only
    Scenario.today Scenario.bad_latitude
  = Some {| page_events := [];
            page_lat := "north";
            page_lng := "-73.0";
            page_radius := "10.0";
            page_start_date := "2024-06-01";
            page_end_date := "2024-06-08" |}.
Proof. vm_compute. reflexivity. Qed.

Lemma index_events_from_successful_query_witness :
  ∃ q_lat q_lng radius_km start_dt end_dt,
    get_events_for_query (rt := py_runtime) Scenario.campus_only
      q_lat q_lng radius_km start_dt end_dt = Ok [Scenario.art_walk].
Proof.
  destruct (index_events_from_successful_query (rt := py_runtime)
              (fm := py_formatter) _ _ _ _ plain_search_page)
    as [Hnil|(lat_s & lng_s & q_lat & q_lng & radius_km & start_dt & end_dt
              & end_day & _ & _ & _ & _ & _ & _ & _ & _ & Hq)].
  - discriminate Hnil.
  - by exists q_lat, q_lng, radius_km, start_dt, end_dt.
Defined.

Lemma index_runs_query_witness :
  ∃ p,
    index (rt := py_runtime) (fm := py_formatter) Scenario.campus_only
      Scenario.today Scenario.plain_search = Some p
    ∧ page_events p
      = index_events (rt := py_runtime) Scenario.campus_only
          (400 / 10) (- (730 / 10)) 10
          Scenario.query_start Scenario.query_end.
Proof.
  apply (index_runs_query (rt := py_runtime) (fm := py_formatter)
           Scenario.campus_only Scenario.today (mk_date 2024 6 8)
           Scenario.plain_search "40.0" "-73.0").
  - reflexivity.
  - discriminate.
  - reflexivity.
  - discriminate.
  - reflexivity.
  - reflexivity.
  - left. split; reflexivity.
  - reflexivity.
  - reflexivity.
  - reflexivity.
Defined.
